(** * BotBETA: query synthesis, normalisation and relevance filtering

    A shallow embedding of [sql_utils.py], [deepseek1.py] and the
    recommendation path of [book_service.py], together with the properties
    of the pipeline that are stated about them.

    Text.  A Python [str] is modelled as a list of characters, a character
    being a code point below 256 ([ascii]).  On this range the classes used by
    the code are exactly:
    - [str.isspace], [str.strip], [str.split] and the regular expression
      class [\s]: code points 9-13, 28-32, 133 and 160;
    - [\d]: the ten ASCII digits;
    - [\w]: the alphanumeric code points and the underscore;
    - [re.IGNORECASE] on an ASCII letter: the letter in either case.

    Regular expressions.  Every pattern of the source is embedded as a
    function that tries to match at the beginning of a text and returns the
    captured groups and the text that follows the match.  [re.search] and
    [re.sub] are the generic scanning loops over such a function.

    Collaborators.  What the language-model service answers to one request
    is a value of [DeepSeek.reply]; the data source is a function from the
    query text to its rows, or to a failure.  The module-level caches are
    threaded through the calls as a [DeepSeek.state].  Logging and timing
    are left out.

    Numbers.  The array pattern of the filter admits digits only, so the
    numbers read from a reply, and the indices made of them, are naturals;
    the interpreter's limit on the length of an integer literal is not
    modelled. *)

From Stdlib Require Import ZArith NArith List Ascii String Bool Lia.
From stdpp Require Import base option list gmap strings.

Local Open Scope list_scope.

Abbreviation str := (list ascii).

(** A string literal of the source. *)
Definition lit (s : string) : str := list_ascii_of_string s.
Arguments lit : simpl never.

(** ** Character classes *)

Module Char.

Definition code (c : ascii) : N := N_of_ascii c.

Definition between (lo hi : N) (c : ascii) : bool :=
  ((lo <=? code c) && (code c <=? hi))%N.

Definition has_code (n : N) (c : ascii) : bool := (code c =? n)%N.

(** [str.isspace] and [\s]. *)
Definition isspace (c : ascii) : bool :=
  between 9 13 c || between 28 32 c || has_code 133 c || has_code 160 c.

(** [\d]. *)
Definition isdigit (c : ascii) : bool := between 48 57 c.

(** [\w]. *)
Definition isword (c : ascii) : bool :=
  isdigit c || between 65 90 c || between 97 122 c || has_code 95 c
  || has_code 170 c || between 178 179 c || has_code 181 c || between 185 186 c
  || between 188 190 c || between 192 214 c || between 216 246 c
  || between 248 255 c.

Definition lower (c : ascii) : ascii :=
  if between 65 90 c then ascii_of_N (code c + 32) else c.

(** A pattern character [p] against a text character [c] under
    [re.IGNORECASE]. *)
Definition ieqb (p c : ascii) : bool := Ascii.eqb (lower p) (lower c).

Definition quote : ascii := "'"%char.
Definition dquote : ascii := "034"%char.
Definition semicolon : ascii := ";"%char.
Definition percent : ascii := "%"%char.
Definition comma : ascii := ","%char.
Definition lbracket : ascii := "["%char.
Definition rbracket : ascii := "]"%char.
Definition space : ascii := " "%char.

(** The 256 characters. *)
Definition all : list ascii := map ascii_of_nat (seq 0 256).

End Char.

(** ** The [str] methods used by the code *)

Module PyStr.

(** Drops the longest prefix of characters satisfying [p]. *)
Fixpoint skip (p : ascii -> bool) (s : str) : str :=
  match s with
  | c :: r => if p c then skip p r else s
  | [] => []
  end.

(** The longest prefix of characters satisfying [p]. *)
Fixpoint run (p : ascii -> bool) (s : str) : str :=
  match s with
  | c :: r => if p c then c :: run p r else []
  | [] => []
  end.

Definition lstrip_with (p : ascii -> bool) (s : str) : str := skip p s.
Definition rstrip_with (p : ascii -> bool) (s : str) : str :=
  rev (skip p (rev s)).

(** [s.strip()] *)
Definition strip (s : str) : str :=
  rstrip_with Char.isspace (lstrip_with Char.isspace s).

(** [s.rstrip(chars)] *)
Definition rstrip (chars : str) (s : str) : str :=
  rstrip_with (fun c => existsb (Ascii.eqb c) chars) s.

(** [s.count(c)] for a one-character argument. *)
Definition count (c : ascii) (s : str) : nat :=
  count_occ ascii_dec s c.

(** [s.endswith(c)] for a one-character argument. *)
Definition endswith (c : ascii) (s : str) : bool :=
  match rev s with
  | x :: _ => Ascii.eqb x c
  | [] => false
  end.

(** [c in s] for a one-character [c]. *)
Definition contains (c : ascii) (s : str) : bool := existsb (Ascii.eqb c) s.

(** Splits at every character satisfying [p]; empty pieces are kept. *)
Fixpoint split_at (p : ascii -> bool) (s : str) : list str :=
  match s with
  | [] => [[]]
  | c :: r =>
      if p c then [] :: split_at p r
      else match split_at p r with
           | h :: t => (c :: h) :: t
           | [] => [[c]]
           end
  end.

Definition nonempty (s : str) : bool :=
  match s with [] => false | _ :: _ => true end.

(** [s.split(c)] for a one-character separator. *)
Definition split_on (c : ascii) (s : str) : list str :=
  split_at (Ascii.eqb c) s.

(** [s.split()]: the maximal runs of non-whitespace characters. *)
Definition split (s : str) : list str :=
  List.filter nonempty (split_at Char.isspace s).

(** [sep.join(l)] *)
Fixpoint join (sep : str) (l : list str) : str :=
  match l with
  | [] => []
  | [x] => x
  | x :: r => x ++ sep ++ join sep r
  end.

End PyStr.

(** ** Regular expression machinery *)

Module Re.

(** A literal, matched case-sensitively; returns the text after it. *)
Fixpoint literal (p : str) (s : str) : option str :=
  match p, s with
  | [], _ => Some s
  | a :: p', c :: r => if Ascii.eqb a c then literal p' r else None
  | _ :: _, [] => None
  end.

(** A literal under [re.IGNORECASE]. *)
Fixpoint literal_i (p : str) (s : str) : option str :=
  match p, s with
  | [], _ => Some s
  | a :: p', c :: r => if Char.ieqb a c then literal_i p' r else None
  | _ :: _, [] => None
  end.

(** [C+] for a character class [C], greedy.  In every pattern of the source
    what follows [C+] cannot begin with a character of [C] (after [\s+.*?X]
    the lazy [.*?] can, but a whitespace character given back to it is one on
    which [X] fails), so the longest run is the only one from which the
    match can continue. *)
Definition plus (p : ascii -> bool) (s : str) : option str :=
  match s with
  | c :: r => if p c then Some (PyStr.skip p r) else None
  | [] => None
  end.

(** [C*], greedy, under the same proviso. *)
Definition star (p : ascii -> bool) (s : str) : str := PyStr.skip p s.

(** The text consumed by a match of [s] that leaves [rest]. *)
Definition matched (s rest : str) : str :=
  take (length s - length rest) s.

(** [re.search]: the match at the leftmost position that has one. *)
Fixpoint search {A} (m : str -> option A) (s : str) : option A :=
  match m s with
  | Some r => Some r
  | None =>
      match s with
      | [] => None
      | _ :: r => search m r
      end
  end.

(** [re.sub] for a pattern that matches no empty text.  [m] returns the
    replacement and the text after the match; [skipped] counts the characters
    of the current match still to be passed over. *)
Fixpoint sub_from (m : str -> option (str * str)) (skipped : nat) (s : str)
  : str :=
  match s with
  | [] => []
  | c :: r =>
      match skipped with
      | S k => sub_from m k r
      | O =>
          match m s with
          | Some (repl, rest) => repl ++ sub_from m (length r - length rest) r
          | None => c :: sub_from m 0 r
          end
      end
  end.

Definition sub (m : str -> option (str * str)) (s : str) : str :=
  sub_from m 0 s.


End Re.

(** ** sql_utils.py *)

Module SqlUtils.

Import Char PyStr.

(** [SELECT\s+.*?;] with [re.DOTALL | re.IGNORECASE]: the keyword, at least
    one whitespace character, then lazily up to the first semicolon.  The
    result is the matched text, [group(0)]. *)
Fixpoint upto_semicolon (s : str) : option str :=
  match s with
  | [] => None
  | c :: r => if Ascii.eqb c semicolon then Some r else upto_semicolon r
  end.

Definition select_statement (s : str) : option str :=
  r ← Re.literal_i (lit "SELECT") s;
  r ← Re.plus isspace r;
  rest ← upto_semicolon r;
  Some (Re.matched s rest).

(** [```sql|```], replaced by the empty text. *)
Definition code_fence (s : str) : option (str * str) :=
  match Re.literal (lit "```sql") s with
  | Some rest => Some ([], rest)
  | None =>
      match Re.literal (lit "```") s with
      | Some rest => Some ([], rest)
      | None => None
      end
  end.

Definition extract_sql_query (text : str) : str :=
  match Re.search select_statement text with
  | Some sql_match => sql_match
  | None => strip (Re.sub code_fence text)
  end.

(** [\s+], replaced by one space. *)
Definition whitespace_run (s : str) : option (str * str) :=
  rest ← Re.plus isspace s;
  Some ([space], rest).

(** The f-string of lines 30 and 34: [column], [ LIKE '%], [pattern], [%']. *)
Definition like_clause (column pattern : str) : str :=
  column ++ lit " LIKE '%" ++ pattern ++ lit "%'".

(** The closure [fix_like_pattern] of [clean_sql], on the two groups of its
    match. *)
Definition fix_like_pattern (column pattern : str) : str :=
  if contains percent pattern then
    let terms := List.filter nonempty (split_on percent pattern) in
    if 1 <? length terms then
      let conditions := map (like_clause column) terms in
      lit "(" ++ join (lit " AND ") conditions ++ lit ")"
    else like_clause column pattern
  else like_clause column pattern.

(** [[^']+?%'], the tail of the LIKE pattern: one character other than a
    quote, then the closing [%'] if it is there, otherwise one more
    character. *)
Fixpoint lazy_pattern (s : str) : option (str * str) :=
  match s with
  | [] => None
  | c :: r =>
      if Ascii.eqb c quote then None
      else
        match Re.literal (lit "%'") r with
        | Some rest => Some ([c], rest)
        | None => '(p, rest) ← lazy_pattern r; Some (c :: p, rest)
        end
  end.

(** [(\w+)\s+LIKE\s+'%([^']+?)%'] (no flags): the two groups and the text
    after the match. *)
Definition like_match (s : str) : option (str * str * str) :=
  r ← Re.plus isword s;
  r ← Re.plus isspace r;
  r ← Re.literal (lit "LIKE") r;
  r ← Re.plus isspace r;
  r ← Re.literal (lit "'%") r;
  '(pattern, rest) ← lazy_pattern r;
  Some (run isword s, pattern, rest).

Definition like_rewrite (s : str) : option (str * str) :=
  '(column, pattern, rest) ← like_match s;
  Some (fix_like_pattern column pattern, rest).

(** The text of [clean_sql] after extraction and whitespace clean-up. *)
Definition collapsed (sql_text : str) : str :=
  strip (Re.sub whitespace_run (extract_sql_query sql_text)).

(** The text of [clean_sql] after the LIKE patterns are fixed. *)
Definition like_fixed (sql_text : str) : str :=
  Re.sub like_rewrite (collapsed sql_text).

(** The last two steps of [clean_sql]: unbalanced quotes and the final
    semicolon. *)
Definition fix_quotes (sql_text : str) : str :=
  if Nat.odd (count quote sql_text) then
    let sql_text := rstrip (lit ";'") sql_text ++ lit "'" in
    if negb (endswith semicolon sql_text) then sql_text ++ lit ";"
    else sql_text
  else sql_text.

Definition ensure_semicolon (sql_text : str) : str :=
  if negb (endswith semicolon sql_text) then sql_text ++ lit ";"
  else sql_text.

Definition clean_sql (sql_text : str) : str :=
  ensure_semicolon (fix_quotes (like_fixed sql_text)).

End SqlUtils.

(** ** deepseek1.py *)

Module DeepSeek.

Import Char PyStr.

Definition MAX_CACHE_SIZE : nat := 1000.
Definition MAX_FILTER_CACHE_SIZE : nat := 1000.

(** A record returned by the data source: field name to value. *)
Abbreviation Book := (gmap str str).

(** What the [requests.post] of one call comes back with. *)
Inductive reply :=
| Timeout                 (* requests.exceptions.Timeout *)
| RequestException        (* any other requests.exceptions.RequestException *)
| BadBody                 (* a body without choices[0].message.content *)
| Content (content : str) (total_tokens : Z).

Inductive exn :=
| GenerationTimeout       (* Exception: the service did not respond in time *)
| GenerationFailed        (* Exception: failed to communicate *)
| BodyError               (* reading the body raised *)
| IndexError.

Inductive result (A : Type) :=
| Return (a : A)
| Raise (e : exn).
Arguments Return {A} a.
Arguments Raise {A} e.

(** The module-level state: the two caches, and the number of requests the
    module has posted to the language-model service. *)
Record state := {
  sql_cache : gmap str (str * option str);
  filter_cache : gmap (str * list str) (list nat);
  posted : nat
}.

Definition initial : state :=
  {| sql_cache := ∅; filter_cache := ∅; posted := 0 |}.

Definition post (st : state) : state :=
  {| sql_cache := sql_cache st; filter_cache := filter_cache st;
     posted := S (posted st) |}.

Definition store_sql (k : str) (v : str * option str) (st : state) : state :=
  {| sql_cache := <[k := v]> (sql_cache st); filter_cache := filter_cache st;
     posted := posted st |}.

Definition store_filter (k : str * list str) (v : list nat) (st : state)
  : state :=
  {| sql_cache := sql_cache st; filter_cache := <[k := v]> (filter_cache st);
     posted := posted st |}.

(** The group [(.*?)] and the double quote that closes it, with [re.DOTALL]:
    lazily up to the first double quote. *)
Fixpoint upto_dquote (s : str) : option (str * str) :=
  match s with
  | [] => None
  | c :: r =>
      if Ascii.eqb c dquote then Some ([], r)
      else '(g, rest) ← upto_dquote r; Some (c :: g, rest)
  end.

(** [loading_line:\s*] followed by a double-quoted [(.*?)]: group 1 and the
    text after the match. *)
Definition loading_line_match (s : str) : option (str * str) :=
  r ← Re.literal (lit "loading_line:") s;
  r ← Re.literal [dquote] (Re.star isspace r);
  upto_dquote r.

Definition loading_line_removed (s : str) : option (str * str) :=
  '(_, rest) ← loading_line_match s;
  Some ([], rest).

(** [FROM\s+(?:Table_ProductSearchNewSearch|Table_TopBooksData)] under
    [re.IGNORECASE], at the beginning of [s]. *)
Definition from_table (s : str) : bool :=
  match r ← Re.literal_i (lit "FROM") s; Re.plus isspace r with
  | Some r =>
      match Re.literal_i (lit "Table_ProductSearchNewSearch") r with
      | Some _ => true
      | None =>
          match Re.literal_i (lit "Table_TopBooksData") r with
          | Some _ => true
          | None => false
          end
      end
  | None => false
  end.

(** [.*?] before it, with [re.DOTALL]: the rest of the pattern is tried here,
    then one character further. *)
Fixpoint lazy_from_table (s : str) : bool :=
  from_table s ||
  match s with
  | [] => false
  | _ :: r => lazy_from_table r
  end.

(** The [re.match] of line 181: does the text have the required shape? *)
Definition valid_sql_format (sql_text : str) : bool :=
  match
    r ← Re.literal_i (lit "SELECT") sql_text;
    r ← Re.plus isspace r;
    r ← Re.literal_i (lit "TOP") r;
    r ← Re.plus isspace r;
    r ← Re.plus isdigit r;
    Re.plus isspace r
  with
  | Some r => lazy_from_table r
  | None => false
  end.

Definition fallback_select : str :=
  lit "SELECT TOP 15 Product_Title, AuthorName1, Category_Name, Product_SalePrice, Product_TitleURl, ISBN13 FROM Table_ProductSearchNewSearch WHERE Product_Title LIKE '%".

(** The fallback of lines 184-186.  [user_query.split()[0]] raises when the
    request has no token. *)
Definition fallback_sql (user_query : str) : result str :=
  match split user_query with
  | [] => Raise IndexError
  | first :: _ =>
      let sql_text := fallback_select ++ first ++ lit "%'" in
      if 1 <? length (split user_query) then
        Return (sql_text ++ lit " OR AuthorName1 LIKE '%" ++ first
                ++ lit "%' OR Category_Name LIKE '%" ++ first ++ lit "%'")
      else Return sql_text
  end.

(** Lines 170-179: the loading line and the candidate query text read from
    the (already stripped) content of the reply. *)
Definition parse_response (full_response_content : str) : option str * str :=
  let '(loading_line, sql_text) :=
    match Re.search loading_line_match full_response_content with
    | Some (g, _) =>
        (Some (strip g),
         strip (Re.sub loading_line_removed full_response_content))
    | None => (None, full_response_content)
    end in
  (loading_line, strip (Re.sub SqlUtils.code_fence sql_text)).

Definition get_sql_from_deepseek (api : reply) (user_query : str) (st : state)
  : result (str * option str * Z) * state :=
  match sql_cache st !! user_query with
  | Some (cached_sql, cached_loading_line) =>
      (Return (cached_sql, cached_loading_line, 0%Z), st)
  | None =>
      let st := post st in
      match api with
      | Timeout => (Raise GenerationTimeout, st)
      | RequestException => (Raise GenerationFailed, st)
      | BadBody => (Raise BodyError, st)
      | Content content token_used =>
          let '(loading_line, sql_text) := parse_response (strip content) in
          match
            if negb (valid_sql_format sql_text) then fallback_sql user_query
            else Return sql_text
          with
          | Raise e => (Raise e, st)
          | Return sql_text =>
              let st :=
                if size (sql_cache st) <? MAX_CACHE_SIZE
                then store_sql user_query (sql_text, loading_line) st
                else st in
              (Return (sql_text, loading_line, token_used), st)
          end
      end
  end.

(** [(?:,\s*\d+)*], greedy: the text after the last complete repetition.
    Stopping earlier leaves a comma where [\s*\]] has to match. *)
Fixpoint comma_groups (fuel : nat) (s : str) : str :=
  match fuel with
  | O => s
  | S fuel =>
      match
        r ← Re.literal [comma] s; Re.plus isdigit (Re.star isspace r)
      with
      | Some r => comma_groups fuel r
      | None => s
      end
  end.

(** [\[\s*\d*(?:,\s*\d+)*\s*\]]: the matched text. *)
Definition json_array (s : str) : option str :=
  r ← Re.literal [lbracket] s;
  let r := Re.star isdigit (Re.star isspace r) in
  let r := Re.star isspace (comma_groups (length r) r) in
  rest ← Re.literal [rbracket] r;
  Some (Re.matched s rest).

(** [json.loads] on a text made of brackets, digits, commas and blanks, which
    is all the array pattern lets through: the scanner of a JSON array of
    unsigned integers.  [None] is [json.JSONDecodeError]. *)
Inductive json_state :=
| AtStart
| AfterOpen
| InNumber (leading_zero : bool) (value : nat)
| AfterValue
| AfterComma
| AfterClose.

Definition json_ws (c : ascii) : bool :=
  has_code 32 c || has_code 9 c || has_code 10 c || has_code 13 c.

Definition digit_value (c : ascii) : nat := N.to_nat (code c - 48).

Fixpoint json_scan (st : json_state) (acc : list nat) (s : str)
  : option (list nat) :=
  match s with
  | [] => match st with AfterClose => Some (rev acc) | _ => None end
  | c :: r =>
      match st with
      | AtStart =>
          if json_ws c then json_scan AtStart acc r
          else if Ascii.eqb c lbracket then json_scan AfterOpen acc r
          else None
      | AfterOpen =>
          if json_ws c then json_scan AfterOpen acc r
          else if Ascii.eqb c rbracket then json_scan AfterClose acc r
          else if isdigit c
          then json_scan (InNumber (has_code 48 c) (digit_value c)) acc r
          else None
      | InNumber leading_zero n =>
          if isdigit c then
            if leading_zero then None
            else json_scan (InNumber false (10 * n + digit_value c)) acc r
          else if json_ws c then json_scan AfterValue (n :: acc) r
          else if Ascii.eqb c comma then json_scan AfterComma (n :: acc) r
          else if Ascii.eqb c rbracket then json_scan AfterClose (n :: acc) r
          else None
      | AfterValue =>
          if json_ws c then json_scan AfterValue acc r
          else if Ascii.eqb c comma then json_scan AfterComma acc r
          else if Ascii.eqb c rbracket then json_scan AfterClose acc r
          else None
      | AfterComma =>
          if json_ws c then json_scan AfterComma acc r
          else if isdigit c
          then json_scan (InNumber (has_code 48 c) (digit_value c)) acc r
          else None
      | AfterClose =>
          if json_ws c then json_scan AfterClose acc r else None
      end
  end.

Definition json_loads (s : str) : option (list nat) := json_scan AtStart [] s.

(** [b.get('Product_Title', '')] *)
Definition title (b : Book) : str := default [] (b !! lit "Product_Title").

(** [[i-1 for i in selected_indices if isinstance(i, int) and 0 < i <= n]];
    every element of a parsed array is an [int]. *)
Definition valid (n : nat) (selected_indices : list nat) : list nat :=
  map pred (List.filter (fun i => (0 <? i) && (i <=? n)) selected_indices).

(** Line 214: [books[:20] if len(books) > 20 else books] *)
Definition books_to_process (books : list Book) : list Book :=
  if 20 <? length books then take 20 books else books.

(** Line 217: the request and the tuple of the titles sent for filtering. *)
Definition cache_key (user_query : str) (books : list Book) : str * list str :=
  (user_query, map title (books_to_process books)).

Definition filter_books_with_deepseek
    (api : reply) (user_query : str) (books : list Book) (st : state)
  : result (list nat) * state :=
  let books_to_process := books_to_process books in
  let cache_key := cache_key user_query books in
  match filter_cache st !! cache_key with
  | Some cached => (Return cached, st)
  | None =>
      let st := post st in
      let all_books := seq 0 (length books_to_process) in
      match api with
      | Timeout => (Return all_books, st)
      | RequestException => (Return all_books, st)
      | BadBody => (Raise BodyError, st)
      | Content content _ =>
          let content := strip content in
          match Re.search json_array content with
          | Some json_match =>
              match json_loads json_match with
              | Some selected_indices =>
                  let valid_indices :=
                    valid (length books_to_process) selected_indices in
                  let st :=
                    if size (filter_cache st) <? MAX_FILTER_CACHE_SIZE
                    then store_filter cache_key valid_indices st
                    else st in
                  (Return valid_indices, st)
              | None => (Return all_books, st)
              end
          | None => (Return all_books, st)
          end
      end
  end.

End DeepSeek.

(** ** book_service.py *)

Module BookService.

Import DeepSeek.

(** The collaborators of one call of [recommend_books]. *)
Record world := {
  cursor_ok : bool;                                (* a usable pyodbc cursor *)
  sql_api : reply;                                 (* reply to the synthesis request *)
  execute_sql_query : str -> option (list Book);   (* [None]: the query raised *)
  filter_api : reply                               (* reply to the filtering request *)
}.

(** What [recommend_books] returns: one of its fixed messages, or the
    response that phase 2 renders from the loading line and [final_books]. *)
Inductive response :=
| CoffeeBreak
| Tangled
| LostConnection
| Snag (loading_line : str)
| NoMatches (loading_line : str)
| NoneRight (loading_line : str)
| Recommended (loading_line : str) (final_books : list Book).

(** Line 71: [[db_results[i] for i in selected_indices if i < len(db_results)]] *)
Definition select_books (db_results : list Book) (selected_indices : list nat)
  : list Book :=
  omap (fun i => db_results !! i)
    (List.filter (fun i => i <? length db_results) selected_indices).

Definition recommend_books (w : world) (user_query : str) (st : state)
  : response * state :=
  if negb (cursor_ok w) then (CoffeeBreak, st)
  else
    match get_sql_from_deepseek (sql_api w) user_query st with
    | (Raise _, st) => (Tangled, st)
    | (Return (sql_text_raw, deepseek_loading_line, _), st) =>
        let loading_line := default [] deepseek_loading_line in
        let clean_query := SqlUtils.clean_sql sql_text_raw in
        if negb (cursor_ok w) then (LostConnection, st)
        else
          match execute_sql_query w clean_query with
          | None => (Snag loading_line, st)
          | Some [] => (NoMatches loading_line, st)
          | Some db_results =>
              let '(final_books, st) :=
                match filter_books_with_deepseek (filter_api w) user_query
                        db_results st with
                | (Return selected_indices, st) =>
                    (select_books db_results selected_indices, st)
                | (Raise _, st) => (take 15 db_results, st)
                end in
              match final_books with
              | [] => (NoneRight loading_line, st)
              | _ => (Recommended loading_line final_books, st)
              end
          end
    end.

End BookService.

(** ** LIKE clauses, in words *)

Module Clause.

Import Char PyStr SqlUtils.

(** The text ends where a column name can begin: it is empty or its last
    character is not a word character. *)
Definition word_boundary (pre : str) : Prop :=
  match last pre with
  | Some d => isword d = false
  | None => True
  end.

(** A piece of a pattern: free of the separator and of the quote. *)
Definition piece (s : str) : Prop := ~ In percent s /\ ~ In quote s.

(** The pattern whose pieces, empty ones included, are separated by [%]. *)
Definition pattern_of (pieces : list str) : str := join [percent] pieces.

(** One condition per term, joined by [AND], in parentheses. *)
Definition conjunction (column : str) (terms : list str) : str :=
  lit "(" ++ join (lit " AND ") (map (like_clause column) terms) ++ lit ")".

(** What a clause on [column] with the given pieces is replaced by. *)
Definition replacement (column : str) (pieces : list str) : str :=
  let terms := List.filter nonempty pieces in
  if 1 <? length terms then conjunction column terms
  else like_clause column (pattern_of pieces).

End Clause.

(** ** The shape of a query, in words *)

Module Shape.

Import Char.

(** [w] spells the keyword [k], in any mix of upper and lower case. *)
Definition keyword (k : string) (w : str) : Prop :=
  Forall2 (fun p c => ieqb p c = true) (lit k) w.








End Shape.

(** ** The states the program goes through *)

Module Reach.

Import DeepSeek BookService.

(** The caches start empty and are written by the functions above only. *)
Inductive reachable : state -> Prop :=
| reachable_initial : reachable initial
| reachable_get_sql api user_query st :
    reachable st ->
    reachable (snd (get_sql_from_deepseek api user_query st))
| reachable_filter api user_query books st :
    reachable st ->
    reachable (snd (filter_books_with_deepseek api user_query books st))
| reachable_recommend w user_query st :
    reachable st ->
    reachable (snd (recommend_books w user_query st)).

(** Every list in the filter cache indexes the titles of its key. *)
Definition filter_cache_in_range (st : state) : Prop :=
  forall user_query titles cached,
    filter_cache st !! (user_query, titles) = Some cached ->
    Forall (fun i => i < length titles) cached.

End Reach.

(** ** Sample data *)

Module Examples.

Import DeepSeek BookService.

Definition book (product_title : string) : Book :=
  {[ lit "Product_Title" := lit product_title ]}.

Definition shelf : list Book := [book "Dune"; book "Emma"; book "Ulysses"].

Definition fiction_query : str :=
  lit "SELECT TOP 15 Product_Title FROM Table_ProductSearchNewSearch WHERE Category_Name LIKE '%Fiction%';".

(** A query with an apostrophe inside a quoted pattern. *)
Definition obrien_query : str :=
  lit "SELECT TOP 15 Product_Title FROM Table_ProductSearchNewSearch WHERE AuthorName1 LIKE '%O'Brien%';".

(** A run in which synthesis succeeds with [fiction_query] and the data
    source returns [shelf]. *)
Definition run_with (filter_reply : reply) : world :=
  {| cursor_ok := true;
     sql_api := Content fiction_query 42;
     execute_sql_query := fun _ => Some shelf;
     filter_api := filter_reply |}.

End Examples.

(** ** The program over time *)

Module History.

Import DeepSeek BookService.

(** [evolves st st']: the state [st'] is [st] after any number of calls of
    the three functions, whatever the collaborators answer. *)
Inductive evolves (st : state) : state -> Prop :=
| evolves_refl : evolves st st
| evolves_get_sql api user_query st' :
    evolves st st' ->
    evolves st (snd (get_sql_from_deepseek api user_query st'))
| evolves_filter api user_query books st' :
    evolves st st' ->
    evolves st (snd (filter_books_with_deepseek api user_query books st'))
| evolves_recommend w user_query st' :
    evolves st st' ->
    evolves st (snd (recommend_books w user_query st')).

End History.

(** ** More sample data *)

(** ** Shapes of text *)

Module Layout.

Import Char PyStr.

(** Every whitespace character of [s] is a plain space, and no whitespace
    character follows it. *)
Fixpoint single_spaced (s : str) : bool :=
  match s with
  | [] => true
  | c :: r =>
      (if isspace c then
         Ascii.eqb c space
         && match r with
            | d :: _ => negb (isspace d)
            | [] => true
            end
       else true)
      && single_spaced r
  end.

(** Nowhere in [s] are there three backquotes in a row. *)
Fixpoint fence_free (s : str) : bool :=
  match s with
  | [] => true
  | _ :: r =>
      match Re.literal (lit "```") s with
      | Some _ => false
      | None => fence_free r
      end
  end.

(** One statement: a body without a semicolon, closed by one. *)
Definition single_statement (s : str) : Prop :=
  exists body, s = body ++ [semicolon] /\ ~ In semicolon body.

End Layout.

Module Samples.

Import DeepSeek BookService.

(** A state whose synthesis cache is full: a thousand two-character
    requests, each with the same query. *)
Definition thousand_requests : list str :=
  map (fun n => [ascii_of_nat (n / 256); ascii_of_nat (n mod 256)]) (seq 0 1000).

Definition full_state : state :=
  {| sql_cache :=
       list_to_map (map (fun q => (q, (Examples.fiction_query, None)))
                      thousand_requests);
     filter_cache := ∅;
     posted := 1000 |}.

(** The state after a first run for the request [dune]. *)
Definition after_dune : state :=
  snd (recommend_books (Examples.run_with (Content (lit "[2]") 9))
         (lit "dune") initial).

(** The sample shelf with an author on each record: the titles are the
    same. *)
Definition signed_shelf : list Book :=
  map (fun b => <[lit "AuthorName1" := lit "Anon"]> b) Examples.shelf.

(** A run in which the language-model service does not answer. *)
Definition silent_service : world :=
  {| cursor_ok := true; sql_api := Timeout;
     execute_sql_query := fun _ => None; filter_api := Timeout |}.

(** A reply with a second statement after the query. *)
Definition stacked_reply : str :=
  lit "Sure: select  TOP 5 * from Table_TopBooksData; DROP TABLE Orders; --".

(** A reply without a statement, in a code fence. *)
Definition fenced_reply : str := lit "```sql I cannot help with that ```".

End Samples.

(** ** app.py *)

Module App.

Import PyStr.

(** The test of line 117 of the chat route, which answers such a message
    itself: [not latest_message or latest_message.strip() == ""]. *)
Definition empty_message (latest_message : str) : bool :=
  match latest_message with
  | [] => true
  | _ :: _ =>
      match strip latest_message with
      | [] => true
      | _ :: _ => false
      end
  end.

End App.

(** * Properties *)

(** Runs the binds of a matcher whose first steps are known. *)
Ltac bind := cbn [mbind option_bind].

(** ** Characters and the string methods *)

Module TextFacts.

Import Char PyStr.

Lemma forall_ascii (P : ascii -> bool) :
  forallb P all = true -> forall c, P c = true.
Proof.
  intros H c. rewrite forallb_forall in H. apply H.
  apply in_map_iff. exists (nat_of_ascii c).
  split; [apply ascii_nat_embedding|].
  apply in_seq. pose proof (nat_ascii_bounded c). lia.
Qed.

(** Under [re.IGNORECASE] a character matches only characters of its own
    classes. *)
Lemma ieqb_classes (p c : ascii) :
  ieqb p c = true ->
  isspace c = isspace p /\ isdigit c = isdigit p /\ isword c = isword p.
Proof.
  pose (P := fun p c =>
          implb (ieqb p c)
            (Bool.eqb (isspace c) (isspace p)
             && Bool.eqb (isdigit c) (isdigit p)
             && Bool.eqb (isword c) (isword p))).
  assert (H : forall p c, P p c = true).
  { intros p'. revert p'.
    assert (H2 : forall p', forallb (P p') all = true).
    { apply (forall_ascii (fun p' => forallb (P p') all)).
      vm_compute. reflexivity. }
    intros p' c'. apply (forall_ascii (P p') (H2 p')). }
  intros Hi. specialize (H p c). unfold P in H. rewrite Hi in H. simpl in H.
  apply andb_prop in H as [H Hw]. apply andb_prop in H as [Hs Hd].
  apply Bool.eqb_prop in Hw, Hs, Hd. auto.
Qed.

Lemma space_not_word (c : ascii) : isspace c = true -> isword c = false.
Proof.
  intros H.
  pose proof (forall_ascii (fun c => implb (isspace c) (negb (isword c)))
                eq_refl c) as E.
  cbv beta in E. rewrite H in E. simpl in E. apply negb_true_iff. exact E.
Qed.


Lemma eqb_eq_ascii (a b : ascii) : Ascii.eqb a b = true <-> a = b.
Proof. apply Ascii.eqb_eq. Qed.

(** *** [skip] and [run] *)

Lemma run_skip (p : ascii -> bool) (s : str) : run p s ++ skip p s = s.
Proof.
  induction s as [|c r IH]; simpl; [reflexivity|].
  destruct (p c); simpl; [rewrite IH|]; reflexivity.
Qed.

Lemma run_all (p : ascii -> bool) (s : str) :
  Forall (fun c => p c = true) (run p s).
Proof.
  induction s as [|c r IH]; simpl; [constructor|].
  destruct (p c) eqn:E; constructor; assumption.
Qed.

Lemma skip_all (p : ascii -> bool) (w r : str) :
  Forall (fun c => p c = true) w -> skip p (w ++ r) = skip p r.
Proof. induction 1 as [|c w Hc _ IH]; simpl; [|rewrite Hc]; auto. Qed.

Lemma skip_stop (p : ascii -> bool) (c : ascii) (r : str) :
  p c = false -> skip p (c :: r) = c :: r.
Proof. intros H. simpl. rewrite H. reflexivity. Qed.

Lemma skip_suffix (p : ascii -> bool) (s : str) : exists w, s = w ++ skip p s.
Proof. exists (run p s). symmetry. apply run_skip. Qed.

Lemma skip_app_stop (p : ascii -> bool) (a : str) (c : ascii) (b : str) :
  p c = false -> skip p (a ++ c :: b) = skip p a ++ c :: b.
Proof.
  intros Hc. induction a as [|x a IH]; simpl.
  - rewrite Hc. reflexivity.
  - destruct (p x); [exact IH | reflexivity].
Qed.

Lemma skip_idem (p : ascii -> bool) (s : str) : skip p (skip p s) = skip p s.
Proof.
  induction s as [|c s IH]; simpl; [reflexivity|].
  destruct (p c) eqn:E; [exact IH|]. simpl. rewrite E. reflexivity.
Qed.

(** *** [C+] *)

Lemma plus_inv (p : ascii -> bool) (s r : str) :
  Re.plus p s = Some r ->
  exists w, w <> [] /\ Forall (fun c => p c = true) w /\ s = w ++ r.
Proof.
  unfold Re.plus. destruct s as [|c s]; [discriminate|].
  destruct (p c) eqn:E; [|discriminate]. intros [= <-].
  exists (c :: run p s). split; [discriminate|]. split.
  - constructor; [exact E | apply run_all].
  - simpl. rewrite run_skip. reflexivity.
Qed.

Lemma plus_app (p : ascii -> bool) (w r : str) :
  w <> [] -> Forall (fun c => p c = true) w ->
  Re.plus p (w ++ r) = Some (skip p r).
Proof.
  intros Hne Hw. destruct Hw as [|c w Hc Hw]; [done|].
  simpl. rewrite Hc. rewrite skip_all by exact Hw. reflexivity.
Qed.

(** *** [rstrip] and [strip] *)

Lemma rstrip_with_keep (p : ascii -> bool) (x : str) (c : ascii) (y : str) :
  p c = false ->
  rstrip_with p (x ++ c :: y) = x ++ c :: rstrip_with p y.
Proof.
  intros Hc. unfold rstrip_with.
  rewrite rev_app_distr. simpl. rewrite <- app_assoc. simpl.
  rewrite (skip_app_stop p (rev y) c (rev x) Hc).
  rewrite rev_app_distr. simpl. rewrite rev_involutive, <- app_assoc.
  reflexivity.
Qed.

Lemma rstrip_with_all (p : ascii -> bool) (x w : str) :
  Forall (fun c => p c = true) w ->
  rstrip_with p (x ++ w) = rstrip_with p x.
Proof.
  intros Hw. unfold rstrip_with. rewrite rev_app_distr.
  rewrite skip_all; [reflexivity|].
  apply Forall_forall. intros c Hc. rewrite Forall_forall in Hw.
  apply Hw. apply list_elem_of_In. apply in_rev. apply list_elem_of_In. exact Hc.
Qed.

Lemma rstrip_with_idem (p : ascii -> bool) (s : str) :
  rstrip_with p (rstrip_with p s) = rstrip_with p s.
Proof. unfold rstrip_with. rewrite rev_involutive, skip_idem. reflexivity. Qed.

(** *** [split] *)

Lemma split_at_none (p : ascii -> bool) (a : str) :
  Forall (fun c => p c = false) a -> split_at p a = [a].
Proof.
  induction 1 as [|c a Hc _ IH]; cbn [split_at]; [reflexivity|].
  rewrite Hc, IH. reflexivity.
Qed.

Lemma split_at_app (p : ascii -> bool) (a : str) (c : ascii) (b : str) :
  Forall (fun c => p c = false) a -> p c = true ->
  split_at p (a ++ c :: b) = a :: split_at p b.
Proof.
  intros Ha Hc. induction Ha as [|x a Hx _ IH]; cbn [app split_at].
  - rewrite Hc. reflexivity.
  - rewrite Hx, IH. reflexivity.
Qed.

Lemma split_at_nonempty (p : ascii -> bool) (s : str) : split_at p s <> [].
Proof.
  induction s as [|c r IH]; cbn [split_at]; [discriminate|].
  destruct (p c); [discriminate|].
  destruct (split_at p r); discriminate.
Qed.

Lemma split_space (c : ascii) (s : str) :
  isspace c = true -> split (c :: s) = split s.
Proof. intros H. unfold split. cbn [split_at]. rewrite H. reflexivity. Qed.

Lemma split_whitespace (lead s : str) :
  Forall (fun c => isspace c = true) lead -> split (lead ++ s) = split s.
Proof.
  induction 1 as [|c lead Hc _ IH]; [reflexivity|].
  cbn [app]. rewrite (split_space c _ Hc). exact IH.
Qed.

Lemma split_token (first rest : str) :
  first <> [] -> Forall (fun c => isspace c = false) first ->
  rest = [] \/ (exists c r, rest = c :: r /\ isspace c = true) ->
  split (first ++ rest) = first :: split rest.
Proof.
  intros Hne Hfirst [->|(c & r & -> & Hc)].
  - rewrite app_nil_r. unfold split. rewrite (split_at_none _ _ Hfirst).
    destruct first; [done | reflexivity].
  - rewrite (split_space c r Hc). unfold split.
    rewrite (split_at_app _ _ _ _ Hfirst Hc).
    destruct first; [done | reflexivity].
Qed.

(** The first token of a request: what follows its leading whitespace, up to
    the next whitespace character. *)
Lemma split_first_token (lead first rest : str) :
  Forall (fun c => isspace c = true) lead ->
  first <> [] -> Forall (fun c => isspace c = false) first ->
  rest = [] \/ (exists c r, rest = c :: r /\ isspace c = true) ->
  split (lead ++ first ++ rest) = first :: split rest.
Proof.
  intros Hlead Hne Hfirst Hrest. rewrite (split_whitespace lead _ Hlead).
  apply split_token; assumption.
Qed.

(** A request has no token exactly when it is empty or all whitespace. *)
Lemma split_blank (s : str) :
  split s = [] <-> Forall (fun c => isspace c = true) s.
Proof.
  induction s as [|c s IH].
  - split; [constructor | reflexivity].
  - destruct (isspace c) eqn:Hc.
    + rewrite (split_space c s Hc), IH. split.
      * intros H. constructor; assumption.
      * intros H. inversion H; assumption.
    + split.
      * unfold split. cbn [split_at]. rewrite Hc.
        pose proof (split_at_nonempty isspace s) as Hs.
        destruct (split_at isspace s); [done | discriminate].
      * intros H. inversion H; congruence.
Qed.
(** *** Literals, [re.search] and [re.sub] *)

Lemma literal_inv (k s r : str) : Re.literal k s = Some r -> s = k ++ r.
Proof.
  revert s. induction k as [|a k IH]; intros s; simpl.
  - intros [= ->]. reflexivity.
  - destruct s as [|c s]; [discriminate|].
    destruct (Ascii.eqb a c) eqn:E; [|discriminate].
    apply Ascii.eqb_eq in E as ->. intros H. rewrite (IH s H). reflexivity.
Qed.

Lemma literal_app (k r : str) : Re.literal k (k ++ r) = Some r.
Proof.
  induction k as [|a k IH]; simpl; [reflexivity|].
  rewrite Ascii.eqb_refl. exact IH.
Qed.




End TextFacts.

(** ** The normaliser, [clean_sql] *)

Module SqlUtilsFacts.

Import Char PyStr SqlUtils TextFacts.

Lemma endswith_app_char (c : ascii) (s : str) : endswith c (s ++ [c]) = true.
Proof.
  unfold endswith. rewrite rev_app_distr. simpl. apply Ascii.eqb_refl.
Qed.

Lemma endswith_nonempty (c : ascii) (s : str) : endswith c s = true -> s <> [].
Proof. intros H ->. discriminate H. Qed.

Lemma ensure_semicolon_ends (s : str) :
  endswith semicolon (ensure_semicolon s) = true.
Proof.
  unfold ensure_semicolon.
  destruct (endswith semicolon s) eqn:E; simpl; [exact E|].
  apply (endswith_app_char semicolon).
Qed.

(** C8.  [clean_sql] is a total function of its input text (none of the
    string and pattern operations it is made of can raise on a [str]), and
    for every input, the empty text and text without any query included, the
    text it returns is not empty: it always ends with a semicolon. *)
Theorem clean_sql_never_empty (sql_text : str) :
  clean_sql sql_text <> [] /\ endswith semicolon (clean_sql sql_text) = true.
Proof.
  assert (H : endswith semicolon (clean_sql sql_text) = true)
    by apply ensure_semicolon_ends.
  split; [apply (endswith_nonempty _ _ H) | exact H].
Qed.

Lemma count_app (c : ascii) (a b : str) : count c (a ++ b) = count c a + count c b.
Proof. unfold count. apply count_occ_app. Qed.

Lemma count_semicolons (semis : str) :
  Forall (fun c => c = semicolon) semis -> count quote semis = 0.
Proof.
  induction 1 as [|c l -> _ IH]; [reflexivity|].
  unfold count in *. simpl. exact IH.
Qed.

Lemma rstrip_with_last (p : ascii -> bool) (body : str) :
  match last body with Some c => p c = false | None => True end ->
  rstrip_with p body = body.
Proof.
  destruct body as [|x body] using rev_ind; [reflexivity|].
  rewrite last_snoc. intros Hc.
  change (body ++ [x]) with (body ++ x :: []).
  rewrite (rstrip_with_keep p body x [] Hc). reflexivity.
Qed.

(** The repair of line 41 balances the quotes of a text whose last character
    before the closing semicolons is not itself a quote. *)
Lemma fix_quotes_balances (body semis : str) :
  Forall (fun c => c = semicolon) semis ->
  match last body with
  | Some c => c <> semicolon /\ c <> quote
  | None => True
  end ->
  Nat.odd (count quote (body ++ semis)) = true ->
  ensure_semicolon (fix_quotes (body ++ semis)) = body ++ lit "';"
  /\ Nat.even (count quote (ensure_semicolon (fix_quotes (body ++ semis)))) = true.
Proof.
  intros Hsemis Hlast Hodd.
  assert (Hstrip : rstrip (lit ";'") (body ++ semis) = body).
  { unfold rstrip. rewrite rstrip_with_all.
    - apply rstrip_with_last. destruct (last body) as [c|]; [|exact I].
      destruct Hlast as [H1 H2]. cbn [lit list_ascii_of_string existsb].
      apply orb_false_iff. split; [|apply orb_false_iff; split; [|reflexivity]].
      + apply Ascii.eqb_neq. exact H1.
      + apply Ascii.eqb_neq. exact H2.
    - eapply Forall_impl; [exact Hsemis|]. intros c ->. reflexivity. }
  assert (Hfix : fix_quotes (body ++ semis) = body ++ lit "';").
  { unfold fix_quotes. rewrite Hodd, Hstrip.
    change (lit "'") with [quote].
    unfold endswith. rewrite rev_app_distr. cbn [rev app negb Ascii.eqb].
    change (Ascii.eqb quote semicolon) with false. cbn [negb].
    rewrite <- app_assoc. reflexivity. }
  assert (Hens : ensure_semicolon (body ++ lit "';") = body ++ lit "';").
  { unfold ensure_semicolon.
    change (lit "';") with ([quote] ++ [semicolon]).
    rewrite app_assoc, endswith_app_char. reflexivity. }
  rewrite Hfix, Hens. split; [reflexivity|].
  rewrite count_app in Hodd. rewrite (count_semicolons semis Hsemis) in Hodd.
  rewrite Nat.add_0_r in Hodd.
  rewrite count_app. change (count quote (lit "';")) with 1.
  rewrite Nat.add_1_r, Nat.even_succ. exact Hodd.
Qed.

(** C5, at the failing input.  The whitespace-collapsed form of the query has
    three single quotes; [clean_sql] returns the query as it is, with its
    three quotes: the quotes are left unbalanced. *)
Theorem unbalanced_quotes_survive :
  count quote (collapsed Examples.obrien_query) = 3
  /\ clean_sql Examples.obrien_query = Examples.obrien_query
  /\ count quote (clean_sql Examples.obrien_query) = 3.
Proof. repeat split; vm_compute; reflexivity. Qed.

End SqlUtilsFacts.

(** ** The LIKE rewrite of [clean_sql] *)

Module LikeFacts.

Import Char PyStr SqlUtils Clause TextFacts SqlUtilsFacts.


(** *** [re.sub], one step at a time *)

Lemma sub_from_skip (m : str -> option (str * str)) (x rest : str) :
  Re.sub_from m (length x) (x ++ rest) = Re.sub_from m 0 rest.
Proof.
  induction x as [|c x IH]; [reflexivity|].
  cbn [length app Re.sub_from]. exact IH.
Qed.

Lemma sub_match (m : str -> option (str * str)) (x rest repl : str) :
  x <> [] -> m (x ++ rest) = Some (repl, rest) ->
  Re.sub m (x ++ rest) = repl ++ Re.sub m rest.
Proof.
  intros Hne Hm. destruct x as [|c x]; [done|].
  unfold Re.sub. cbn [app Re.sub_from]. cbn [app] in Hm. rewrite Hm.
  f_equal. rewrite length_app.
  replace (length x + length rest - length rest) with (length x) by lia.
  apply sub_from_skip.
Qed.

Lemma sub_no_match (m : str -> option (str * str)) (c : ascii) (r : str) :
  m (c :: r) = None -> Re.sub m (c :: r) = c :: Re.sub m r.
Proof. intros Hm. unfold Re.sub. cbn [Re.sub_from]. rewrite Hm. reflexivity. Qed.

(** *** The closing [%'] *)

Lemma literal_close (u v : str) :
  Re.literal (lit "%'") u = Some v <-> u = percent :: quote :: v.
Proof.
  split.
  - intros H. apply literal_inv in H. exact H.
  - intros ->. apply (literal_app (lit "%'") v).
Qed.

Lemma lazy_pattern_inv (s p rest : str) :
  lazy_pattern s = Some (p, rest) ->
  s = p ++ lit "%'" ++ rest /\ p <> [] /\ ~ In quote p.
Proof.
  revert p rest. induction s as [|c r IH]; intros p rest; cbn [lazy_pattern];
    [discriminate|].
  destruct (Ascii.eqb c quote) eqn:Ec; [discriminate|].
  apply Ascii.eqb_neq in Ec.
  destruct (Re.literal (lit "%'") r) as [v|] eqn:El.
  - intros [= <- <-]. apply literal_inv in El as ->.
    split; [reflexivity|]. split; [discriminate|].
    intros [H|[]]. congruence.
  - destruct (lazy_pattern r) as [[p' rest']|] eqn:Er; bind; [|discriminate].
    intros [= <- <-]. destruct (IH p' rest' eq_refl) as (-> & Hne & Hq).
    split; [reflexivity|]. split; [discriminate|].
    intros [H|H]; [congruence | exact (Hq H)].
Qed.

Lemma lazy_pattern_exact (pattern post : str) :
  pattern <> [] -> ~ In quote pattern ->
  lazy_pattern (pattern ++ lit "%'" ++ post) = Some (pattern, post).
Proof.
  induction pattern as [|c r IH]; [done|]. intros _ Hq.
  cbn [app lazy_pattern].
  destruct (Ascii.eqb c quote) eqn:Ec.
  { apply Ascii.eqb_eq in Ec. exfalso. apply Hq. left. exact Ec. }
  assert (Hr : ~ In quote r) by (intros H; apply Hq; right; exact H).
  destruct r as [|d r'].
  - cbn [app]. rewrite (literal_app (lit "%'") post). reflexivity.
  - destruct (Re.literal (lit "%'") ((d :: r') ++ lit "%'" ++ post)) as [v|] eqn:El.
    + exfalso. apply literal_close in El. cbn [app] in El.
      injection El as -> El. destruct r' as [|e r''].
      * cbn [app] in El. discriminate El.
      * cbn [app] in El. injection El as -> _. apply Hr. right. left. reflexivity.
    + rewrite (IH ltac:(discriminate) Hr). reflexivity.
Qed.

(** *** The pattern at a clause *)

Lemma run_app_stop (p : ascii -> bool) (a : str) (d : ascii) (b : str) :
  p d = false -> run p (a ++ d :: b) = run p a.
Proof.
  intros Hd. induction a as [|x a IH]; cbn [app run].
  - rewrite Hd. reflexivity.
  - destruct (p x); [rewrite IH|]; reflexivity.
Qed.

Lemma run_whole (p : ascii -> bool) (w : str) :
  Forall (fun c => p c = true) w -> run p w = w.
Proof. induction 1 as [|c w Hc _ IH]; cbn [run]; [|rewrite Hc, IH]; reflexivity. Qed.

Lemma like_clause_app (column pattern post : str) :
  like_clause column pattern ++ post
  = column ++ space :: lit "LIKE" ++ space :: lit "'%" ++ pattern
    ++ lit "%'" ++ post.
Proof. unfold like_clause. rewrite <- !app_assoc. reflexivity. Qed.

Lemma like_match_clause (column pattern post : str) :
  column <> [] -> Forall (fun c => isword c = true) column ->
  pattern <> [] -> ~ In quote pattern ->
  like_match (like_clause column pattern ++ post)
  = Some (column, pattern, post).
Proof.
  intros Hne Hcol Hpat Hq. rewrite like_clause_app. unfold like_match.
  rewrite (plus_app isword column _ Hne Hcol).
  rewrite (skip_stop isword space _ eq_refl). bind.
  cbn [Re.plus]. change (isspace space) with true. cbv iota.
  change (skip isspace (lit "LIKE" ++ ?x)) with (lit "LIKE" ++ x).
  bind. rewrite (literal_app (lit "LIKE")). bind.
  cbn [Re.plus]. change (isspace space) with true. cbv iota.
  change (skip isspace (lit "'%" ++ ?x)) with (lit "'%" ++ x).
  bind. rewrite (literal_app (lit "'%")). bind.
  rewrite (lazy_pattern_exact pattern post Hpat Hq). bind.
  rewrite (run_app_stop isword column space _ eq_refl).
  rewrite (run_whole isword column Hcol). reflexivity.
Qed.

(** *** A match never runs from the text before a clause into the clause *)

Lemma literal_app_cases (k s T : str) :
  (exists r, Re.literal k s = Some r /\ Re.literal k (s ++ T) = Some (r ++ T))
  \/ (Re.literal k s = None /\ Re.literal k (s ++ T) = None)
  \/ (exists k2, k2 <> [] /\ k = s ++ k2 /\ Re.literal k s = None
                 /\ Re.literal k (s ++ T) = Re.literal k2 T).
Proof.
  revert s. induction k as [|x k IH]; intros s.
  - left. exists s. split; reflexivity.
  - destruct s as [|c s].
    + right. right. exists (x :: k). repeat split; discriminate || reflexivity.
    + cbn [app Re.literal]. destruct (Ascii.eqb x c) eqn:E.
      * apply Ascii.eqb_eq in E as ->.
        destruct (IH s) as [(r & H1 & H2)|[(H1 & H2)|(k2 & Hne & -> & H1 & H2)]].
        -- left. exists r. auto.
        -- right. left. auto.
        -- right. right. exists k2. auto.
      * right. left. auto.
Qed.

(** The first character of a class splits a text in one way only. *)
Lemma first_split_unique (p : ascii -> bool) (a a' : str) (x x' : ascii)
    (b b' : str) :
  Forall (fun c => p c = false) a -> p x = true ->
  Forall (fun c => p c = false) a' -> p x' = true ->
  a ++ x :: b = a' ++ x' :: b' -> a = a' /\ b = b'.
Proof.
  intros Ha Hx. revert a'. induction Ha as [|c a Hc _ IH]; intros a' Ha' Hx' E.
  - destruct Ha' as [|c' a' Hc' _]; cbn [app] in E.
    + injection E as _ ->. auto.
    + injection E as -> _. congruence.
  - destruct Ha' as [|c' a' Hc' Ha']; cbn [app] in E.
    + injection E as -> _. congruence.
    + injection E as -> E. destruct (IH a' Ha' Hx' E) as [-> ->]. auto.
Qed.

Section Boundary.

Variables column pattern post : str.
Hypothesis column_nonempty : column <> [].
Hypothesis column_word : Forall (fun c => isword c = true) column.

Local Abbreviation T := (like_clause column pattern ++ post).
Local Abbreviation X :=
  (lit "LIKE" ++ space :: lit "'%" ++ pattern ++ lit "%'" ++ post).

Lemma clause_text : T = column ++ space :: X.
Proof. apply like_clause_app. Qed.

Lemma clause_head : exists t0 T', T = t0 :: T' /\ isword t0 = true.
Proof.
  rewrite clause_text. destruct column_word as [|c col Hc _]; [done|].
  exists c, (col ++ space :: X). auto.
Qed.

Lemma word_not_space (c : ascii) : isword c = true -> isspace c = false.
Proof.
  intros H. destruct (isspace c) eqn:E; [|reflexivity].
  apply space_not_word in E. congruence.
Qed.

Lemma word_not_mark (c : ascii) :
  isword c = true -> c <> quote /\ c <> percent.
Proof. intros H. split; intros ->; discriminate H. Qed.

(** [[^']+?%'] *)
Lemma lazy_pattern_clause : lazy_pattern T = None.
Proof.
  rewrite clause_text.
  assert (H : forall w, ~ In quote w -> lazy_pattern (w ++ space :: X) = None).
  { intros w. induction w as [|c w IH]; intros Hq.
    - reflexivity.
    - cbn [app lazy_pattern].
      destruct (Ascii.eqb c quote) eqn:Ec; [reflexivity|].
      assert (Hw : ~ In quote w) by (intros H; apply Hq; right; exact H).
      destruct (Re.literal (lit "%'") (w ++ space :: X)) as [v|] eqn:El.
      + exfalso. apply literal_close in El.
        destruct w as [|d [|e w]]; cbn [app] in El; try discriminate El.
        injection El as _ -> _. apply Hw. right. left. reflexivity.
      + rewrite (IH Hw). reflexivity. }
  apply H. intros Hq. rewrite Forall_forall in column_word.
  apply list_elem_of_In, column_word in Hq. discriminate Hq.
Qed.

Lemma lazy_pattern_local (s : str) :
  lazy_pattern (s ++ T)
  = match lazy_pattern s with
    | Some (p, r) => Some (p, r ++ T)
    | None => None
    end.
Proof.
  induction s as [|c r IH].
  - apply lazy_pattern_clause.
  - cbn [app lazy_pattern]. destruct (Ascii.eqb c quote); [reflexivity|].
    destruct (literal_app_cases (lit "%'") r T)
      as [(v & H1 & H2)|[(H1 & H2)|(k2 & Hne & Hk & H1 & H2)]].
    + rewrite H1, H2. reflexivity.
    + rewrite H1, H2, IH. destruct (lazy_pattern r) as [[p v]|]; reflexivity.
    + assert (Hnone : Re.literal k2 T = None).
      { destruct clause_head as (t0 & T' & -> & Ht0).
        apply word_not_mark in Ht0 as [Hq Hp].
        change (lit "%'") with [percent; quote] in Hk.
        destruct r as [|a [|b r]]; cbn [app] in Hk.
        * subst k2. cbn [Re.literal].
          destruct (Ascii.eqb_spec percent t0); [congruence | reflexivity].
        * injection Hk as _ <-. cbn [Re.literal].
          destruct (Ascii.eqb_spec quote t0); [congruence | reflexivity].
        * injection Hk as _ _ Hk. destruct r; cbn [app] in Hk; [|discriminate Hk].
          congruence. }
      rewrite H1, H2, Hnone, IH.
      destruct (lazy_pattern r) as [[p v]|]; reflexivity.
Qed.

(** ['%([^']+?)%'] *)
Local Abbreviation quoted s := (r ← Re.literal (lit "'%") s; lazy_pattern r).

Lemma quoted_local (s : str) :
  quoted (s ++ T)
  = match quoted s with
    | Some (p, r) => Some (p, r ++ T)
    | None => None
    end.
Proof.
  destruct (literal_app_cases (lit "'%") s T)
    as [(v & H1 & H2)|[(H1 & H2)|(k2 & Hne & Hk & H1 & H2)]].
  - rewrite H1, H2. bind. apply lazy_pattern_local.
  - rewrite H1, H2. reflexivity.
  - assert (Hnone : Re.literal k2 T = None).
    { destruct clause_head as (t0 & T' & -> & Ht0).
      apply word_not_mark in Ht0 as [Hq Hp].
      change (lit "'%") with [quote; percent] in Hk.
      destruct s as [|a [|b s]]; cbn [app] in Hk.
      * subst k2. cbn [Re.literal].
        destruct (Ascii.eqb_spec quote t0); [congruence | reflexivity].
      * injection Hk as _ <-. cbn [Re.literal].
        destruct (Ascii.eqb_spec percent t0); [congruence | reflexivity].
      * injection Hk as _ _ Hk. destruct s; cbn [app] in Hk; [|discriminate Hk].
        congruence. }
    rewrite H1, H2, Hnone. reflexivity.
Qed.

(** [\s+'%([^']+?)%'] *)
Local Abbreviation operand s := (r ← Re.plus isspace s; quoted r).

Lemma skip_space_clause (r : str) : skip isspace (r ++ T) = skip isspace r ++ T.
Proof.
  destruct clause_head as (t0 & T' & -> & Ht0).
  apply skip_app_stop. apply word_not_space. exact Ht0.
Qed.

Lemma plus_space_local (s : str) :
  Re.plus isspace (s ++ T)
  = match Re.plus isspace s with
    | Some r => Some (r ++ T)
    | None => None
    end.
Proof.
  destruct s as [|c r].
  - destruct clause_head as (t0 & T' & -> & Ht0). cbn [app Re.plus].
    rewrite (word_not_space t0 Ht0). reflexivity.
  - cbn [app Re.plus]. destruct (isspace c); [|reflexivity].
    rewrite skip_space_clause. reflexivity.
Qed.

Lemma operand_local (s : str) :
  operand (s ++ T)
  = match operand s with
    | Some (p, r) => Some (p, r ++ T)
    | None => None
    end.
Proof.
  rewrite plus_space_local. destruct (Re.plus isspace s) as [r|]; bind;
    [apply quoted_local | reflexivity].
Qed.

(** [LIKE\s+'%([^']+?)%'] entered inside the clause. *)
Lemma keyword_cross (k2 r : str) :
  Forall (fun c => isspace c = false) k2 ->
  Re.literal k2 T = Some r -> operand r = None.
Proof.
  intros Hk2 Hlit. apply literal_inv in Hlit. rewrite clause_text in Hlit.
  destruct (Re.plus isspace r) as [r'|] eqn:Ep; [|reflexivity].
  destruct r as [|c r0]; [discriminate|]. cbn [Re.plus] in Ep.
  destruct (isspace c) eqn:Ec; [|discriminate]. injection Ep as <-.
  assert (Hcol : Forall (fun c => isspace c = false) column).
  { eapply Forall_impl; [exact column_word|]. apply word_not_space. }
  destruct (first_split_unique isspace column k2 space c X r0 Hcol eq_refl
              Hk2 Ec Hlit) as [_ <-].
  reflexivity.
Qed.

Local Abbreviation keyword s := (r ← Re.literal (lit "LIKE") s; operand r).

Lemma keyword_local (s : str) :
  keyword (s ++ T)
  = match keyword s with
    | Some (p, r) => Some (p, r ++ T)
    | None => None
    end.
Proof.
  destruct (literal_app_cases (lit "LIKE") s T)
    as [(v & H1 & H2)|[(H1 & H2)|(k2 & Hne & Hk & H1 & H2)]].
  - rewrite H1, H2. bind. apply operand_local.
  - rewrite H1, H2. reflexivity.
  - rewrite H1, H2. bind.
    destruct (Re.literal k2 T) as [r|] eqn:El; [|reflexivity]. bind.
    apply (keyword_cross k2 r); [|exact El].
    assert (Hall : Forall (fun c => isspace c = false) (lit "LIKE"))
      by (repeat constructor).
    rewrite Hk in Hall. apply Forall_app in Hall as [_ Hall]. exact Hall.
Qed.

(** [\s+LIKE\s+'%([^']+?)%'] *)
Local Abbreviation tail s := (r ← Re.plus isspace s; keyword r).

Lemma tail_local (s : str) :
  tail (s ++ T)
  = match tail s with
    | Some (p, r) => Some (p, r ++ T)
    | None => None
    end.
Proof.
  rewrite plus_space_local. destruct (Re.plus isspace s) as [r|]; bind;
    [apply keyword_local | reflexivity].
Qed.

Lemma like_match_tail (s : str) :
  like_match s
  = r ← Re.plus isword s; '(p, rest) ← tail r; Some (run isword s, p, rest).
Proof.
  unfold like_match.
  destruct (Re.plus isword s) as [r1|]; bind; [|reflexivity].
  destruct (Re.plus isspace r1) as [r2|]; bind; [|reflexivity].
  destruct (Re.literal (lit "LIKE") r2) as [r3|]; bind; [|reflexivity].
  destruct (Re.plus isspace r3) as [r4|]; bind; [|reflexivity].
  destruct (Re.literal (lit "'%") r4) as [r5|]; bind; reflexivity.
Qed.

(** The whole pattern, tried in the text before the clause. *)
Lemma like_match_local (pre' : str) (d : ascii) :
  isword d = false ->
  like_match ((pre' ++ [d]) ++ T)
  = match like_match (pre' ++ [d]) with
    | Some (c, p, r) => Some (c, p, r ++ T)
    | None => None
    end.
Proof.
  intros Hd. rewrite !like_match_tail.
  rewrite <- (app_assoc pre' [d] T). cbn [app].
  rewrite (run_app_stop isword pre' d T Hd).
  rewrite <- (run_app_stop isword pre' d [] Hd).
  destruct pre' as [|c p]; cbn [app Re.plus].
  - rewrite Hd. reflexivity.
  - destruct (isword c) eqn:Ec; [|reflexivity]. bind.
    rewrite (skip_app_stop isword p d T Hd).
    rewrite (skip_app_stop isword p d [] Hd).
    change (skip isword p ++ d :: T) with (skip isword p ++ [d] ++ T).
    rewrite (app_assoc (skip isword p) [d] T).
    rewrite (tail_local (skip isword p ++ [d])).
    destruct (tail (skip isword p ++ [d])) as [[pat rest]|]; reflexivity.
Qed.

Lemma like_match_consumes (s c p rest : str) :
  like_match s = Some (c, p, rest) -> exists x, x <> [] /\ s = x ++ rest.
Proof.
  unfold like_match.
  destruct (Re.plus isword s) as [r1|] eqn:E1; bind; [|discriminate].
  destruct (Re.plus isspace r1) as [r2|] eqn:E2; bind; [|discriminate].
  destruct (Re.literal (lit "LIKE") r2) as [r3|] eqn:E3; bind; [|discriminate].
  destruct (Re.plus isspace r3) as [r4|] eqn:E4; bind; [|discriminate].
  destruct (Re.literal (lit "'%") r4) as [r5|] eqn:E5; bind; [|discriminate].
  destruct (lazy_pattern r5) as [[p' rest']|] eqn:E6; bind; [|discriminate].
  intros [= _ <- <-].
  apply plus_inv in E1 as (w1 & Hne & _ & ->).
  apply plus_inv in E2 as (w2 & _ & _ & ->).
  apply literal_inv in E3 as ->. apply plus_inv in E4 as (w3 & _ & _ & ->).
  apply literal_inv in E5 as ->. apply lazy_pattern_inv in E6 as (-> & _).
  exists (w1 ++ w2 ++ lit "LIKE" ++ w3 ++ lit "'%" ++ p' ++ lit "%'").
  split.
  - destruct w1; [done | discriminate].
  - rewrite <- !app_assoc. reflexivity.
Qed.

Lemma boundary_suffix (x rest : str) :
  word_boundary (x ++ rest) -> word_boundary rest.
Proof.
  unfold word_boundary. destruct rest as [|c rest] using rev_ind; [done|].
  rewrite app_assoc, !last_snoc. auto.
Qed.

Lemma boundary_snoc (pre : str) :
  word_boundary pre -> pre <> [] ->
  exists pre' d, pre = pre' ++ [d] /\ isword d = false.
Proof.
  unfold word_boundary. destruct pre as [|d pre'] using rev_ind; [done|].
  rewrite last_snoc. intros Hd _. exists pre', d. auto.
Qed.

Lemma like_rewrite_local (pre : str) :
  word_boundary pre -> pre <> [] ->
  like_rewrite (pre ++ T)
  = match like_rewrite pre with
    | Some (repl, r) => Some (repl, r ++ T)
    | None => None
    end.
Proof.
  intros Hb Hne. destruct (boundary_snoc pre Hb Hne) as (pre' & d & -> & Hd).
  unfold like_rewrite. rewrite (like_match_local pre' d Hd).
  destruct (like_match (pre' ++ [d])) as [[[c p] r]|]; reflexivity.
Qed.

(** The rewrite of the text before a clause does not reach into it. *)
Lemma sub_local (pre : str) :
  word_boundary pre ->
  Re.sub like_rewrite (pre ++ T)
  = Re.sub like_rewrite pre ++ Re.sub like_rewrite T.
Proof.
  remember (length pre) as n eqn:Hn. revert pre Hn.
  induction n as [n IH] using lt_wf_ind. intros pre -> Hb.
  destruct pre as [|c r]; [reflexivity|].
  pose proof (like_rewrite_local (c :: r) Hb ltac:(discriminate)) as Hloc.
  destruct (like_rewrite (c :: r)) as [[repl rest]|] eqn:Hm.
  - assert (Hx : exists x, x <> [] /\ c :: r = x ++ rest).
    { unfold like_rewrite in Hm.
      destruct (like_match (c :: r)) as [[[c0 p0] r0]|] eqn:Hlm; [|discriminate].
      cbn in Hm. injection Hm as _ <-.
      apply (like_match_consumes _ _ _ _ Hlm). }
    destruct Hx as (x & Hxne & Hx). rewrite Hx in Hm, Hloc |- *.
    rewrite <- app_assoc in Hloc |- *.
    rewrite (sub_match like_rewrite x (rest ++ T) repl Hxne Hloc).
    rewrite (sub_match like_rewrite x rest repl Hxne Hm).
    rewrite <- app_assoc. f_equal.
    apply (IH (length rest)); [|reflexivity|].
    + rewrite Hx, length_app. destruct x; [done|]. cbn [length]. lia.
    + rewrite Hx in Hb. apply (boundary_suffix x rest Hb).
  - cbn [app] in Hloc |- *.
    rewrite (sub_no_match like_rewrite c (r ++ T) Hloc).
    rewrite (sub_no_match like_rewrite c r Hm).
    cbn [app]. f_equal.
    apply (IH (length r)); [cbn [length]; lia | reflexivity |].
    apply (boundary_suffix [c] r Hb).
Qed.

End Boundary.

(** *** What [fix_like_pattern] returns *)

Lemma piece_no_percent (x : str) :
  piece x -> Forall (fun c => Ascii.eqb percent c = false) x.
Proof.
  intros [Hp _]. apply Forall_forall. intros c Hc.
  apply Ascii.eqb_neq. intros <-. apply Hp. apply list_elem_of_In. exact Hc.
Qed.

Lemma split_on_join (pieces : list str) :
  pieces <> [] -> Forall piece pieces ->
  split_on percent (pattern_of pieces) = pieces.
Proof.
  unfold split_on, pattern_of. intros Hne Hall.
  induction Hall as [|x l Hx Hl IH]; [done|].
  destruct l as [|y l].
  - cbn [join]. apply split_at_none, piece_no_percent, Hx.
  - change (join [percent] (x :: y :: l))
      with (x ++ percent :: join [percent] (y :: l)).
    rewrite (split_at_app _ x percent _ (piece_no_percent x Hx) eq_refl).
    rewrite IH by discriminate. reflexivity.
Qed.

Lemma contains_none (c : ascii) (x : str) : ~ In c x -> contains c x = false.
Proof.
  intros H. unfold contains. induction x as [|d x IH]; [reflexivity|].
  cbn [existsb]. destruct (Ascii.eqb_spec c d) as [->|_].
  - exfalso. apply H. left. reflexivity.
  - apply IH. intros Hin. apply H. right. exact Hin.
Qed.

Lemma contains_join (x y : str) (l : list str) :
  contains percent (pattern_of (x :: y :: l)) = true.
Proof.
  unfold contains, pattern_of.
  change (join [percent] (x :: y :: l))
    with (x ++ percent :: join [percent] (y :: l)).
  rewrite existsb_app. cbn [existsb]. rewrite Ascii.eqb_refl.
  apply orb_true_r.
Qed.

Lemma fix_like_pattern_replacement (column : str) (pieces : list str) :
  pieces <> [] -> Forall piece pieces ->
  fix_like_pattern column (pattern_of pieces) = replacement column pieces.
Proof.
  intros Hne Hall. unfold fix_like_pattern, replacement.
  destruct pieces as [|x [|y l]]; [done| |].
  - inversion Hall as [|? ? [Hp _] _]; subst.
    change (pattern_of [x]) with x. rewrite (contains_none percent x Hp).
    destruct x; reflexivity.
  - rewrite contains_join, (split_on_join _ Hne Hall). reflexivity.
Qed.

Lemma join_in (c : ascii) (sep : str) (l : list str) :
  In c (join sep l) -> In c sep \/ exists x, In x l /\ In c x.
Proof.
  induction l as [|x l IH]; [intros []|].
  destruct l as [|y l].
  - cbn [join]. intros H. right. exists x. split; [left; reflexivity | exact H].
  - change (join sep (x :: y :: l)) with (x ++ sep ++ join sep (y :: l)).
    intros H. apply in_app_or in H as [H|H].
    + right. exists x. split; [left; reflexivity | exact H].
    + apply in_app_or in H as [H|H]; [left; exact H|].
      destruct (IH H) as [Hs|(z & Hz & Hc)]; [left; exact Hs|].
      right. exists z. split; [right; exact Hz | exact Hc].
Qed.

Lemma pattern_no_quote (pieces : list str) :
  Forall piece pieces -> ~ In quote (pattern_of pieces).
Proof.
  intros Hall H. apply join_in in H as [[H|[]]|(x & Hx & Hq)].
  - discriminate H.
  - rewrite Forall_forall in Hall. apply list_elem_of_In in Hx.
    destruct (Hall x Hx) as [_ Hnq]. exact (Hnq Hq).
Qed.

(** *** The rewritten clause survives the last two steps *)

Lemma rstrip_with_cons (p : ascii -> bool) (c : ascii) (b : str) :
  rstrip_with p (c :: b) = [] \/ exists b', rstrip_with p (c :: b) = c :: b'.
Proof.
  assert (H : exists w, c :: b = rstrip_with p (c :: b) ++ w).
  { unfold rstrip_with. destruct (skip_suffix p (rev (c :: b))) as [w Hw].
    exists (rev w). rewrite <- rev_app_distr, <- Hw, rev_involutive.
    reflexivity. }
  destruct H as [w Hw]. destruct (rstrip_with p (c :: b)) as [|c' b'].
  - left. reflexivity.
  - right. exists b'. cbn [app] in Hw. injection Hw as <- _. reflexivity.
Qed.

Lemma replacement_end (column : str) (pieces : list str) :
  (exists r0, replacement column pieces = r0 ++ [")"%char])
  \/ (exists r0, replacement column pieces = r0 ++ [percent; quote]).
Proof.
  unfold replacement.
  destruct (1 <? length (List.filter nonempty pieces)).
  - left. unfold conjunction. eexists. rewrite app_assoc. reflexivity.
  - right. unfold like_clause. eexists. rewrite !app_assoc. reflexivity.
Qed.

Lemma rstrip_keeps_replacement (a r b : str) :
  (exists r0, r = r0 ++ [")"%char]) \/ (exists r0, r = r0 ++ [percent; quote]) ->
  exists tail, rstrip (lit ";'") (a ++ r ++ b) ++ lit "'" = a ++ r ++ tail.
Proof.
  unfold rstrip. intros [[r0 ->]|[r0 ->]].
  - exists (rstrip_with (fun c => existsb (Ascii.eqb c) (lit ";'")) b ++ lit "'").
    rewrite <- (app_assoc r0), (app_assoc a r0). cbn [app].
    rewrite rstrip_with_keep by reflexivity.
    rewrite <- !app_assoc. reflexivity.
  - rewrite <- (app_assoc r0), (app_assoc a r0). cbn [app].
    rewrite rstrip_with_keep by reflexivity.
    destruct (rstrip_with_cons (fun c => existsb (Ascii.eqb c) (lit ";'")) quote b)
      as [->|[b' ->]].
    + exists []. rewrite <- !app_assoc. reflexivity.
    + exists (b' ++ lit "'"). rewrite <- !app_assoc. reflexivity.
Qed.

Lemma finish_keeps_replacement (a r b : str) :
  (exists r0, r = r0 ++ [")"%char]) \/ (exists r0, r = r0 ++ [percent; quote]) ->
  exists tail, ensure_semicolon (fix_quotes (a ++ r ++ b)) = a ++ r ++ tail.
Proof.
  intros Hr.
  assert (Hfix : exists t1, fix_quotes (a ++ r ++ b) = a ++ r ++ t1).
  { unfold fix_quotes. destruct (Nat.odd (count quote (a ++ r ++ b))).
    - destruct (rstrip_keeps_replacement a r b Hr) as [t Ht]. rewrite Ht.
      destruct (negb (endswith semicolon (a ++ r ++ t))).
      + exists (t ++ lit ";"). rewrite <- !app_assoc. reflexivity.
      + exists t. reflexivity.
    - exists b. reflexivity. }
  destruct Hfix as [t1 ->]. unfold ensure_semicolon.
  destruct (negb (endswith semicolon (a ++ r ++ t1))).
  - exists (t1 ++ lit ";"). rewrite <- !app_assoc. reflexivity.
  - exists t1. reflexivity.
Qed.

(** C2 (as amended).  Take the text of [clean_sql] after the query has been
    extracted and its whitespace collapsed, and in it a clause
    [<column> LIKE '%<pattern>%']: the column a run of word characters that
    starts at a word boundary, the pattern not empty and made of pieces
    without quote separated by [%].  The rewrite of lines 22-37 replaces the
    clause by [replacement column pieces] and rewrites the text before and
    after it on their own; the replacement is still in the text that
    [clean_sql] returns.  By definition [replacement] is the parenthesised
    conjunction of one [<column> LIKE '%<term>%'] per non-empty piece when
    there are two such pieces or more, and the clause itself otherwise, in
    particular when the pattern has no [%] inside. *)
Theorem like_clause_rewritten
    (sql_text pre column : str) (pieces : list str) (post : str) :
  collapsed sql_text = pre ++ like_clause column (pattern_of pieces) ++ post ->
  word_boundary pre ->
  column <> [] -> Forall (fun c => isword c = true) column ->
  Forall piece pieces -> pattern_of pieces <> [] ->
  like_fixed sql_text
    = Re.sub like_rewrite pre ++ replacement column pieces
      ++ Re.sub like_rewrite post
  /\ exists tail,
       clean_sql sql_text
       = Re.sub like_rewrite pre ++ replacement column pieces ++ tail.
Proof.
  intros Htext Hpre Hne Hcol Hpieces Hpat.
  assert (Hpne : pieces <> []) by (intros ->; apply Hpat; reflexivity).
  assert (Hfixed :
    like_fixed sql_text
    = Re.sub like_rewrite pre ++ replacement column pieces
      ++ Re.sub like_rewrite post).
  { unfold like_fixed. rewrite Htext.
    rewrite (sub_local column (pattern_of pieces) post Hne Hcol pre Hpre).
    f_equal.
    rewrite (sub_match like_rewrite (like_clause column (pattern_of pieces))
               post (fix_like_pattern column (pattern_of pieces))).
    - rewrite (fix_like_pattern_replacement column pieces Hpne Hpieces).
      reflexivity.
    - unfold like_clause. destruct column; [done | discriminate].
    - unfold like_rewrite.
      rewrite (like_match_clause column (pattern_of pieces) post Hne Hcol Hpat
                 (pattern_no_quote pieces Hpieces)).
      reflexivity. }
  split; [exact Hfixed|].
  unfold clean_sql. rewrite Hfixed.
  apply finish_keeps_replacement, replacement_end.
Qed.

(** A reply with commentary around a query that holds a two-term pattern. *)
Lemma like_clause_rewritten_witness :
  like_fixed (lit "Here: SELECT a FROM t WHERE  X   LIKE '%a%b%' AND Y LIKE '%c%'; Enjoy")
  = lit "SELECT a FROM t WHERE (X LIKE '%a%' AND X LIKE '%b%') AND Y LIKE '%c%';"
  /\ exists tail,
       clean_sql (lit "Here: SELECT a FROM t WHERE  X   LIKE '%a%b%' AND Y LIKE '%c%'; Enjoy")
       = lit "SELECT a FROM t WHERE (X LIKE '%a%' AND X LIKE '%b%')" ++ tail.
Proof.
  destruct (like_clause_rewritten
              (lit "Here: SELECT a FROM t WHERE  X   LIKE '%a%b%' AND Y LIKE '%c%'; Enjoy")
              (lit "SELECT a FROM t WHERE ") (lit "X") [lit "a"; lit "b"]
              (lit " AND Y LIKE '%c%';")) as [H1 [tail H2]].
  - reflexivity.
  - reflexivity.
  - discriminate.
  - repeat constructor.
  - repeat constructor; intros [H|[]]; discriminate H.
  - discriminate.
  - split; [rewrite H1; reflexivity|].
    exists tail. rewrite H2. reflexivity.
Defined.

(** C2, the claim as stated fails: a clause in a second statement is in the
    input, with two pieces in its pattern, and [clean_sql] returns the first
    statement alone; the clause is dropped, not replaced by a conjunction. *)
Lemma clause_after_terminator_dropped :
  lit "SELECT 1; SELECT a FROM t WHERE b LIKE '%x%y%';"
  = lit "SELECT 1; SELECT a FROM t WHERE "
    ++ like_clause (lit "b") (pattern_of [lit "x"; lit "y"]) ++ lit ";"
  /\ clean_sql (lit "SELECT 1; SELECT a FROM t WHERE b LIKE '%x%y%';")
     = lit "SELECT 1;".
Proof. split; reflexivity. Qed.

End LikeFacts.

(** ** The synthesiser, [get_sql_from_deepseek] *)

Module SynthesisFacts.

Import Char PyStr DeepSeek.

(** The fallback text has the required shape whatever token is spliced into
    it. *)
Lemma fallback_select_valid (tail : str) :
  valid_sql_format (fallback_select ++ tail) = true.
Proof. vm_compute. reflexivity. Qed.

Lemma fallback_sql_valid (user_query sql_text : str) :
  fallback_sql user_query = Return sql_text ->
  valid_sql_format sql_text = true.
Proof.
  unfold fallback_sql. destruct (split user_query) as [|first others].
  - discriminate.
  - destruct (1 <? length (first :: others)); intros [= <-];
      rewrite <- ?app_assoc; apply fallback_select_valid.
Qed.

Lemma fallback_sql_returns (user_query : str) :
  split user_query <> [] -> exists sql_text, fallback_sql user_query = Return sql_text.
Proof.
  unfold fallback_sql. destruct (split user_query) as [|first others]; [done|].
  intros _. destruct (1 <? length (first :: others)); eauto.
Qed.

(** C3 (as amended).  For every request that holds at least one
    whitespace-delimited token (by [split_blank], every request that is not
    empty or all whitespace): when the request is not in the cache and the
    call to the language-model service succeeds, [get_sql_from_deepseek]
    returns (it does not raise), reports the cost of the reply, and the query
    text it returns passes the shape check, be it the text of the model or
    the fallback. *)
Theorem get_sql_valid_for_nonblank_request
    (content : str) (tokens : Z) (user_query : str) (st : state) :
  sql_cache st !! user_query = None ->
  split user_query <> [] ->
  exists sql_text loading_line st',
    get_sql_from_deepseek (Content content tokens) user_query st
      = (Return (sql_text, loading_line, tokens), st')
    /\ valid_sql_format sql_text = true.
Proof.
  intros Hmiss Htok. unfold get_sql_from_deepseek. rewrite Hmiss.
  destruct (parse_response (strip content)) as [loading_line candidate].
  destruct (valid_sql_format candidate) eqn:Hv; simpl.
  - eexists _, _, _. split; [reflexivity | exact Hv].
  - destruct (fallback_sql_returns user_query Htok) as [sql Hsql].
    rewrite Hsql. eexists _, _, _. split; [reflexivity |].
    apply (fallback_sql_valid user_query sql Hsql).
Qed.

(** A one-token request and a reply that is not a query. *)
Lemma get_sql_valid_for_nonblank_request_witness :
  exists sql_text loading_line st',
    get_sql_from_deepseek (Content (lit "Sorry, no query.") 42) (lit "dune")
      initial
      = (Return (sql_text, loading_line, 42%Z), st')
    /\ valid_sql_format sql_text = true.
Proof.
  apply (get_sql_valid_for_nonblank_request _ _ (lit "dune") initial).
  - reflexivity.
  - vm_compute. discriminate.
Defined.

(** C3, the claim as stated fails: a request without any token, with a reply
    that is not a query, makes the fallback raise [IndexError]. *)
Lemma get_sql_blank_request_raises :
  sql_cache initial !! lit "  " = None
  /\ get_sql_from_deepseek (Content (lit "Sorry, no query.") 42) (lit "  ")
       initial
     = (Raise IndexError, post initial).
Proof. split; reflexivity. Qed.

(** C4 (as amended).  When the request is not in the cache, the call
    succeeds and the candidate text fails the shape check, the query built in
    its place is the [TOP 15] search of [Table_ProductSearchNewSearch] on the
    first token of the request: against title, author and category joined by
    [OR] when the request has two tokens or more, against the title alone
    when it has exactly one. *)
Theorem fallback_query_text
    (content : str) (tokens : Z) (user_query first : str) (others : list str)
    (st : state) :
  sql_cache st !! user_query = None ->
  valid_sql_format (snd (parse_response (strip content))) = false ->
  split user_query = first :: others ->
  exists loading_line st',
    get_sql_from_deepseek (Content content tokens) user_query st
    = (Return
         (lit "SELECT TOP 15 Product_Title, AuthorName1, Category_Name, Product_SalePrice, Product_TitleURl, ISBN13 FROM Table_ProductSearchNewSearch WHERE Product_Title LIKE '%"
            ++ first ++ lit "%'"
            ++ match others with
               | [] => []
               | _ :: _ =>
                   lit " OR AuthorName1 LIKE '%" ++ first
                   ++ lit "%' OR Category_Name LIKE '%" ++ first ++ lit "%'"
               end,
          loading_line, tokens), st').
Proof.
  intros Hmiss Hbad Hsplit. unfold get_sql_from_deepseek. rewrite Hmiss.
  destruct (parse_response (strip content)) as [loading_line candidate].
  simpl in Hbad. rewrite Hbad. simpl negb. cbv iota.
  unfold fallback_sql. rewrite Hsplit.
  destruct others as [|second others].
  - change (1 <? length [first]) with false. cbv iota.
    rewrite app_nil_r. eexists _, _. reflexivity.
  - change (1 <? length (first :: second :: others)) with true. cbv iota.
    rewrite <- !app_assoc. eexists _, _. reflexivity.
Qed.

(** A three-token request and a reply that is not a query. *)
Lemma fallback_query_text_witness :
  exists loading_line st',
    get_sql_from_deepseek (Content (lit "Sorry, no query.") 42)
      (lit "dune  frank herbert") initial
    = (Return
         (lit "SELECT TOP 15 Product_Title, AuthorName1, Category_Name, Product_SalePrice, Product_TitleURl, ISBN13 FROM Table_ProductSearchNewSearch WHERE Product_Title LIKE '%dune%' OR AuthorName1 LIKE '%dune%' OR Category_Name LIKE '%dune%'",
          loading_line, 42%Z), st').
Proof.
  apply (fallback_query_text (lit "Sorry, no query.") 42
           (lit "dune  frank herbert") (lit "dune")
           [lit "frank"; lit "herbert"] initial); reflexivity.
Defined.

(** C4, the claim as stated fails: for a request of one token the fallback
    matches the title only; author and category are left out. *)
Lemma fallback_single_token_title_only :
  valid_sql_format (snd (parse_response (strip (lit "Sorry, no query.")))) = false
  /\ fst (get_sql_from_deepseek (Content (lit "Sorry, no query.") 42)
            (lit "dune") initial)
     = Return
         (lit "SELECT TOP 15 Product_Title, AuthorName1, Category_Name, Product_SalePrice, Product_TitleURl, ISBN13 FROM Table_ProductSearchNewSearch WHERE Product_Title LIKE '%dune%'",
          None, 42%Z).
Proof. split; reflexivity. Qed.

(** C9.  When a call for a request returns, and the cache was below its
    capacity if that call had to write to it, a second call for the identical
    request returns the same query text (and loading line) with a cost of 0
    and leaves the state as it is: nothing is posted to the language-model
    service, whatever that service would have replied. *)
Theorem second_call_is_cache_hit
    (first_api second_api : reply) (user_query : str) (st st1 : state)
    (sql_text : str) (loading_line : option str) (tokens : Z) :
  get_sql_from_deepseek first_api user_query st
    = (Return (sql_text, loading_line, tokens), st1) ->
  (sql_cache st !! user_query = None -> size (sql_cache st) < MAX_CACHE_SIZE) ->
  get_sql_from_deepseek second_api user_query st1
    = (Return (sql_text, loading_line, 0%Z), st1)
  /\ posted (snd (get_sql_from_deepseek second_api user_query st1)) = posted st1.
Proof.
  intros Hfirst Hroom.
  assert (Hhit : sql_cache st1 !! user_query = Some (sql_text, loading_line)).
  { unfold get_sql_from_deepseek in Hfirst.
    destruct (sql_cache st !! user_query) as [[cached_sql cached_line]|] eqn:Hc.
    - injection Hfirst as <- <- <- <-. exact Hc.
    - specialize (Hroom eq_refl).
      destruct first_api as [| | |content used]; try discriminate.
      destruct (parse_response (strip content)) as [line candidate].
      destruct (if negb (valid_sql_format candidate)
                then fallback_sql user_query else Return candidate)
        as [sql|e]; [|discriminate].
      assert (Hlt : (size (sql_cache (post st)) <? MAX_CACHE_SIZE) = true)
        by (apply Nat.ltb_lt; exact Hroom).
      rewrite Hlt in Hfirst. injection Hfirst as <- <- <- <-.
      simpl. apply lookup_insert_eq. }
  unfold get_sql_from_deepseek. rewrite Hhit. split; reflexivity.
Qed.

(** A first call that writes to the empty cache, and a second one during an
    outage of the service. *)
Lemma second_call_is_cache_hit_witness :
  get_sql_from_deepseek Timeout (lit "dune")
    (snd (get_sql_from_deepseek
            (Content (lit "SELECT TOP 15 Product_Title FROM Table_TopBooksData;") 42)
            (lit "dune") initial))
  = (Return (lit "SELECT TOP 15 Product_Title FROM Table_TopBooksData;", None, 0%Z),
     snd (get_sql_from_deepseek
            (Content (lit "SELECT TOP 15 Product_Title FROM Table_TopBooksData;") 42)
            (lit "dune") initial)).
Proof.
  refine (proj1 (second_call_is_cache_hit
           (Content (lit "SELECT TOP 15 Product_Title FROM Table_TopBooksData;") 42)
           Timeout (lit "dune") initial _ _ None 42 _ _)).
  - reflexivity.
  - intros _. vm_compute. lia.
Defined.

End SynthesisFacts.

(** ** The shape check of the synthesiser *)

Module ShapeFacts.

Import Char PyStr DeepSeek Shape TextFacts.


Lemma literal_i_app (k w r : str) :
  Forall2 (fun p c => ieqb p c = true) k w -> Re.literal_i k (w ++ r) = Some r.
Proof. induction 1 as [|p c k w Hpc _ IH]; simpl; [|rewrite Hpc]; auto. Qed.

Lemma literal_i_inv (k s r : str) :
  Re.literal_i k s = Some r ->
  exists w, s = w ++ r /\ Forall2 (fun p c => ieqb p c = true) k w.
Proof.
  revert s. induction k as [|p k IH]; intros s; simpl.
  - intros [= ->]. exists []. split; [reflexivity | constructor].
  - destruct s as [|c s]; [discriminate|].
    destruct (ieqb p c) eqn:E; [|discriminate].
    intros H. destruct (IH s H) as (w & -> & Hw).
    exists (c :: w). split; [reflexivity | constructor; assumption].
Qed.






















(** On its own the pattern is anchored at the first character of the text;
    the synthesiser never hands it a text with leading whitespace. *)
Lemma valid_sql_format_anchored :
  valid_sql_format (lit " SELECT TOP 15 a FROM Table_TopBooksData") = false
  /\ valid_sql_format (strip (lit " SELECT TOP 15 a FROM Table_TopBooksData"))
     = true.
Proof. split; reflexivity. Qed.



End ShapeFacts.

(** ** The relevance filter, [filter_books_with_deepseek] *)

Module FilterFacts.

Import Char PyStr DeepSeek BookService Reach.

Lemma books_to_process_take (books : list Book) :
  books_to_process books = take 20 books.
Proof.
  unfold books_to_process. destruct (20 <? length books) eqn:E; [done|].
  apply Nat.ltb_ge in E. symmetry. apply take_ge. exact E.
Qed.

Lemma books_to_process_length (books : list Book) :
  length (books_to_process books) = Nat.min 20 (length books).
Proof. rewrite books_to_process_take. apply length_take. Qed.

Lemma valid_in_range (n : nat) (selected_indices : list nat) :
  Forall (fun i => i < n) (valid n selected_indices).
Proof.
  unfold valid. induction selected_indices as [|i l IH]; simpl; [constructor|].
  destruct (0 <? i) eqn:Hpos; simpl; [|exact IH].
  destruct (i <=? n) eqn:Hle; simpl; [|exact IH].
  constructor; [|exact IH].
  apply Nat.ltb_lt in Hpos. apply Nat.leb_le in Hle. lia.
Qed.

Lemma all_books_in_range (n : nat) : Forall (fun i => i < n) (seq 0 n).
Proof. apply Forall_forall. intros i Hi. apply elem_of_seq in Hi. lia. Qed.

(** Whatever a call returns indexes the books it processed, provided the
    cache it may answer from does. *)
Lemma filter_returns_in_range api user_query books st selected st' :
  filter_cache_in_range st ->
  filter_books_with_deepseek api user_query books st = (Return selected, st') ->
  Forall (fun i => i < length (books_to_process books)) selected.
Proof.
  intros Hinv. unfold filter_books_with_deepseek.
  destruct (filter_cache st !! cache_key user_query books) as [cached|] eqn:Hc.
  - intros [= <- <-]. apply Hinv in Hc. rewrite length_map in Hc. exact Hc.
  - destruct api as [| | |content used]; try discriminate;
      try (intros [= <- <-]; apply all_books_in_range).
    destruct (Re.search json_array (strip content)) as [json_match|];
      [|intros [= <- <-]; apply all_books_in_range].
    destruct (json_loads json_match) as [selected_indices|];
      [|intros [= <- <-]; apply all_books_in_range].
    intros [= <- <-]. apply valid_in_range.
Qed.

Lemma store_filter_in_range user_query books indices st :
  filter_cache_in_range st ->
  Forall (fun i => i < length (books_to_process books)) indices ->
  filter_cache_in_range (store_filter (cache_key user_query books) indices st).
Proof.
  intros Hinv Hnew q titles cached. unfold store_filter, cache_key. simpl.
  destruct (decide ((user_query, map title (books_to_process books)) = (q, titles)))
    as [[= <- <-]|Hne].
  - rewrite lookup_insert_eq. intros [= <-]. rewrite length_map. exact Hnew.
  - rewrite lookup_insert_ne by exact Hne. apply Hinv.
Qed.

Lemma filter_preserves_in_range api user_query books st :
  filter_cache_in_range st ->
  filter_cache_in_range (snd (filter_books_with_deepseek api user_query books st)).
Proof.
  intros Hinv. unfold filter_books_with_deepseek.
  destruct (filter_cache st !! cache_key user_query books) as [cached|];
    [exact Hinv|].
  destruct api as [| | |content used]; try exact Hinv.
  destruct (Re.search json_array (strip content)) as [json_match|];
    [|exact Hinv].
  destruct (json_loads json_match) as [selected_indices|]; [|exact Hinv].
  simpl. destruct (size (filter_cache st) <? MAX_FILTER_CACHE_SIZE);
    [|exact Hinv].
  apply (store_filter_in_range user_query books _ (post st)); [exact Hinv|].
  apply valid_in_range.
Qed.

Lemma get_sql_keeps_filter_cache api user_query st :
  filter_cache (snd (get_sql_from_deepseek api user_query st)) = filter_cache st.
Proof.
  unfold get_sql_from_deepseek.
  destruct (sql_cache st !! user_query) as [[cached_sql cached_line]|]; [done|].
  destruct api as [| | |content used]; try done.
  destruct (parse_response (strip content)) as [line candidate].
  destruct (if negb (valid_sql_format candidate)
            then fallback_sql user_query else Return candidate); [|done].
  simpl. destruct (size (sql_cache st) <? MAX_CACHE_SIZE); done.
Qed.

Lemma get_sql_preserves_in_range api user_query st :
  filter_cache_in_range st ->
  filter_cache_in_range (snd (get_sql_from_deepseek api user_query st)).
Proof.
  intros Hinv q titles cached. rewrite get_sql_keeps_filter_cache. apply Hinv.
Qed.

Lemma recommend_preserves_in_range w user_query st :
  filter_cache_in_range st ->
  filter_cache_in_range (snd (recommend_books w user_query st)).
Proof.
  intros Hinv. unfold recommend_books.
  destruct (cursor_ok w); simpl; [|exact Hinv].
  pose proof (get_sql_preserves_in_range (sql_api w) user_query st Hinv) as H1.
  destruct (get_sql_from_deepseek (sql_api w) user_query st)
    as [[[[sql line] used]|e] st1]; simpl in H1; [|exact H1].
  destruct (execute_sql_query w (SqlUtils.clean_sql sql)) as [[|b db]|];
    try exact H1.
  pose proof (filter_preserves_in_range (filter_api w) user_query (b :: db) st1 H1)
    as H2.
  destruct (filter_books_with_deepseek (filter_api w) user_query (b :: db) st1)
    as [[selected|e] st2]; simpl in H2.
  - destruct (select_books (b :: db) selected); exact H2.
  - exact H2.
Qed.

Lemma reachable_in_range st : reachable st -> filter_cache_in_range st.
Proof.
  induction 1 as [|api q st _ IH|api q books st _ IH|w q st _ IH].
  - intros q titles cached. simpl. rewrite lookup_empty. discriminate.
  - apply get_sql_preserves_in_range, IH.
  - apply filter_preserves_in_range, IH.
  - apply recommend_preserves_in_range, IH.
Qed.

(** C6.  In every state the program can reach, for every request and every
    list of candidates, each index of a list that
    [filter_books_with_deepseek] returns (parsed from the reply, produced by
    the fall-back to all books, or served from the cache) is below
    [min(20, len(books))]; indices are natural numbers, so it lies in
    [0 .. min(20, len(books)) - 1]. *)
Theorem filter_indices_in_range
    (api : reply) (user_query : str) (books : list Book) (st st' : state)
    (selected : list nat) :
  reachable st ->
  filter_books_with_deepseek api user_query books st = (Return selected, st') ->
  Forall (fun i => i < Nat.min 20 (length books)) selected.
Proof.
  intros Hreach Hcall. rewrite <- books_to_process_length.
  apply (filter_returns_in_range api user_query books st selected st');
    [apply reachable_in_range; exact Hreach | exact Hcall].
Qed.

(** Three candidates and a reply that names the out-of-range number 7. *)
Lemma filter_indices_in_range_witness :
  Forall (fun i => i < Nat.min 20 (length Examples.shelf)) [1; 0].
Proof.
  apply (filter_indices_in_range (Content (lit "Take [2, 7, 1].") 9)
           (lit "dune") Examples.shelf initial
           (snd (filter_books_with_deepseek (Content (lit "Take [2, 7, 1].") 9)
                   (lit "dune") Examples.shelf initial))).
  - constructor.
  - vm_compute. reflexivity.
Defined.

Lemma count_occ_valid (n : nat) (selected_indices : list nat) (k : nat) :
  0 < k <= n ->
  count_occ Nat.eq_dec (valid n selected_indices) (pred k)
  = count_occ Nat.eq_dec selected_indices k.
Proof.
  intros Hk. unfold valid.
  induction selected_indices as [|i l IH]; simpl; [reflexivity|].
  destruct (0 <? i) eqn:Hpos; simpl.
  - destruct (i <=? n) eqn:Hle; simpl.
    + apply Nat.ltb_lt in Hpos.
      destruct (Nat.eq_dec (pred i) (pred k)), (Nat.eq_dec i k); lia.
    + apply Nat.leb_gt in Hle. destruct (Nat.eq_dec i k); [lia | exact IH].
  - apply Nat.ltb_ge in Hpos. destruct (Nat.eq_dec i k); [lia | exact IH].
Qed.

(** The records picked on line 71 follow the index list element by element. *)
Lemma select_books_elementwise (db_results : list Book) (indices : list nat) :
  Forall (fun i => i < length db_results) indices ->
  Forall2 (fun i b => db_results !! i = Some b) indices
    (select_books db_results indices).
Proof.
  unfold select_books. induction 1 as [|i l Hi _ IH]; simpl; [constructor|].
  pose proof Hi as Hlt. apply Nat.ltb_lt in Hlt. rewrite Hlt. simpl.
  destruct (lookup_lt_is_Some_2 db_results i Hi) as [b Hb].
  rewrite Hb. simpl. constructor; [exact Hb | exact IH].
Qed.

Lemma filter_miss_parsed content used user_query books st json_match
    selected_indices :
  filter_cache st !! cache_key user_query books = None ->
  Re.search json_array (strip content) = Some json_match ->
  json_loads json_match = Some selected_indices ->
  fst (filter_books_with_deepseek (Content content used) user_query books st)
  = Return (valid (Nat.min 20 (length books)) selected_indices).
Proof.
  intros Hmiss Hfound Hloads. unfold filter_books_with_deepseek.
  rewrite Hmiss, Hfound, Hloads, books_to_process_length. reflexivity.
Qed.

(** C10.  On a cache miss, when the reply holds an array that parses to
    [selected_indices], [filter_books_with_deepseek] returns the in-range
    numbers of that array, each lowered by one, in the order of the reply
    and without removing repetitions: the 0-based index [k-1] occurs as often
    as the in-range number [k] does in the array.  The orchestrator picks one
    record per returned index, so a repeated number puts the same record in
    the final response that many times. *)
Theorem filter_keeps_repeated_numbers
    (w : world) (user_query : str) (st st1 : state) (sql_text : str)
    (loading_line : option str) (tokens : Z) (db_results : list Book)
    (content : str) (used : Z) (json_match : str)
    (selected_indices : list nat) :
  cursor_ok w = true ->
  get_sql_from_deepseek (sql_api w) user_query st
    = (Return (sql_text, loading_line, tokens), st1) ->
  execute_sql_query w (SqlUtils.clean_sql sql_text) = Some db_results ->
  filter_cache st1 !! cache_key user_query db_results = None ->
  filter_api w = Content content used ->
  Re.search json_array (strip content) = Some json_match ->
  json_loads json_match = Some selected_indices ->
  let n := Nat.min 20 (length db_results) in
  let indices := valid n selected_indices in
  fst (filter_books_with_deepseek (filter_api w) user_query db_results st1)
    = Return indices
  /\ indices
      = map pred (List.filter (fun i => (0 <? i) && (i <=? n)) selected_indices)
  /\ (forall k, 0 < k <= n ->
        count_occ Nat.eq_dec indices (pred k)
        = count_occ Nat.eq_dec selected_indices k)
  /\ Forall2 (fun i b => db_results !! i = Some b) indices
        (select_books db_results indices)
  /\ (indices <> [] ->
        fst (recommend_books w user_query st)
        = Recommended (default [] loading_line)
            (select_books db_results indices)).
Proof.
  intros Hcursor Hsql Hdb Hmiss Hapi Hfound Hloads n indices.
  assert (Hfilter :
    fst (filter_books_with_deepseek (filter_api w) user_query db_results st1)
    = Return indices).
  { rewrite Hapi. apply (filter_miss_parsed _ _ _ _ _ json_match); assumption. }
  assert (Hrange : Forall (fun i => i < length db_results) indices).
  { eapply Forall_impl; [apply valid_in_range|]. simpl. unfold n. lia. }
  pose proof (select_books_elementwise db_results indices Hrange) as Hsel.
  repeat split; try assumption.
  - intros k Hk. apply count_occ_valid. exact Hk.
  - intros Hne. unfold recommend_books. rewrite Hcursor, Hsql. simpl.
    rewrite Hdb.
    destruct db_results as [|b db].
    + exfalso. apply Hne. unfold indices, n. simpl.
      pose proof (valid_in_range 0 selected_indices) as H0.
      destruct (valid 0 selected_indices) as [|i l]; [reflexivity|].
      inversion H0; lia.
    + destruct (filter_books_with_deepseek (filter_api w) user_query (b :: db) st1)
        as [r st2]. simpl in Hfilter. subst r.
      destruct (select_books (b :: db) indices) as [|b' l] eqn:Hs.
      * exfalso. apply Hne. inversion Hsel as [Hi|]; congruence.
      * reflexivity.
Qed.

(** A reply that names the second candidate twice. *)
Lemma filter_keeps_repeated_numbers_witness :
  fst (filter_books_with_deepseek (Content (lit "[2, 2, 9, 1]") 9)
         (lit "dune") Examples.shelf
         (snd (get_sql_from_deepseek (Content Examples.fiction_query 42)
                 (lit "dune") initial)))
  = Return [1; 1; 0]
  /\ fst (recommend_books (Examples.run_with (Content (lit "[2, 2, 9, 1]") 9))
            (lit "dune") initial)
     = Recommended []
         [Examples.book "Emma"; Examples.book "Emma"; Examples.book "Dune"].
Proof.
  destruct (filter_keeps_repeated_numbers
              (Examples.run_with (Content (lit "[2, 2, 9, 1]") 9))
              (lit "dune") initial
              (snd (get_sql_from_deepseek (Content Examples.fiction_query 42)
                      (lit "dune") initial))
              Examples.fiction_query None 42 Examples.shelf
              (lit "[2, 2, 9, 1]") 9 (lit "[2, 2, 9, 1]") [2; 2; 9; 1])
    as (H1 & _ & _ & _ & H5); try reflexivity.
  split; [exact H1 | apply H5; discriminate].
Defined.

End FilterFacts.

(** ** The orchestrator, [recommend_books] *)

Module OrchestratorFacts.

Import DeepSeek BookService.

(** C1 (as amended).  In a run in which synthesis succeeds and the data
    source returns a non-empty result set: when the relevance filter returns
    an empty index list, [recommend_books] returns its message that none of
    the fetched titles seemed right (with the loading line); the first 15 raw
    results are used unfiltered when the call to the filter raises. *)
Theorem empty_selection_is_none_right
    (w : world) (user_query : str) (st st1 st2 : state) (sql_text : str)
    (loading_line : option str) (tokens : Z) (db_results : list Book) :
  cursor_ok w = true ->
  get_sql_from_deepseek (sql_api w) user_query st
    = (Return (sql_text, loading_line, tokens), st1) ->
  execute_sql_query w (SqlUtils.clean_sql sql_text) = Some db_results ->
  db_results <> [] ->
  (filter_books_with_deepseek (filter_api w) user_query db_results st1
     = (Return [], st2) ->
   recommend_books w user_query st = (NoneRight (default [] loading_line), st2))
  /\ (forall e,
       filter_books_with_deepseek (filter_api w) user_query db_results st1
         = (Raise e, st2) ->
       recommend_books w user_query st
       = (Recommended (default [] loading_line) (take 15 db_results), st2)).
Proof.
  intros Hcursor Hsql Hdb Hne.
  destruct db_results as [|b db]; [done|].
  split; [intros Hfilter | intros e Hfilter];
    unfold recommend_books; rewrite Hcursor, Hsql; simpl;
    rewrite Hdb, Hfilter; reflexivity.
Qed.

(** A filter reply whose body cannot be read: the call raises and the three
    raw results are used. *)
Lemma empty_selection_is_none_right_witness :
  recommend_books (Examples.run_with BadBody) (lit "dune") initial
  = (Recommended [] Examples.shelf,
     post (snd (get_sql_from_deepseek (Content Examples.fiction_query 42)
                  (lit "dune") initial))).
Proof.
  refine (proj2 (empty_selection_is_none_right (Examples.run_with BadBody)
                   (lit "dune") initial _ _ Examples.fiction_query None 42
                   Examples.shelf _ _ _ _) BodyError _);
    try reflexivity.
  discriminate.
Defined.

(** C1, the claim as stated fails: synthesis succeeds, the data source
    returns three records, the filter returns the empty list, and the
    outcome is the none-seemed-right message, not the three records. *)
Lemma empty_selection_not_replaced :
  fst (get_sql_from_deepseek (Content Examples.fiction_query 42) (lit "dune")
         initial)
    = Return (Examples.fiction_query, None, 42%Z)
  /\ fst (filter_books_with_deepseek (Content (lit "[]") 9) (lit "dune")
            Examples.shelf
            (snd (get_sql_from_deepseek (Content Examples.fiction_query 42)
                    (lit "dune") initial)))
     = Return []
  /\ fst (recommend_books (Examples.run_with (Content (lit "[]") 9))
            (lit "dune") initial)
     = NoneRight [].
Proof. repeat split; reflexivity. Qed.

End OrchestratorFacts.

(** * Further properties of the code *)

(** ** More on sql_utils.py *)

Module SqlMoreFacts.

Import Char PyStr SqlUtils Layout TextFacts SqlUtilsFacts LikeFacts ShapeFacts.

(** *** Reasoning about [re.sub] one match at a time *)

Section Substitution.

Variable m : str -> option (str * str).

Hypothesis consumes :
  forall s repl rest,
    m s = Some (repl, rest) -> exists x, x <> [] /\ s = x ++ rest.

Variable P : str -> str -> Prop.

Hypothesis P_nil : P [] [].
Hypothesis P_keep :
  forall c r out, m (c :: r) = None -> P r out -> P (c :: r) (c :: out).
Hypothesis P_replace :
  forall x rest repl out,
    x <> [] -> m (x ++ rest) = Some (repl, rest) -> P rest out ->
    P (x ++ rest) (repl ++ out).

Lemma sub_induction (s : str) : P s (Re.sub m s).
Proof.
  remember (length s) as n eqn:Hn. revert s Hn.
  induction n as [n IH] using lt_wf_ind. intros s ->.
  destruct s as [|c r]; [exact P_nil|].
  destruct (m (c :: r)) as [[repl rest]|] eqn:Hm.
  - destruct (consumes _ _ _ Hm) as (x & Hne & E).
    rewrite E in Hm |- *. rewrite (sub_match m x rest repl Hne Hm).
    apply P_replace; [exact Hne | exact Hm |].
    apply (IH (length rest)); [|reflexivity].
    rewrite E, length_app. destruct x; [done|]. cbn [length]. lia.
  - rewrite (sub_no_match m c r Hm). apply P_keep; [exact Hm|].
    apply (IH (length r)); [cbn [length]; lia | reflexivity].
Qed.

End Substitution.

(** *** The matchers, inverted *)

Lemma skip_nil (p : ascii -> bool) (s : str) :
  skip p s = [] <-> Forall (fun c => p c = true) s.
Proof.
  induction s as [|c s IH]; cbn [skip].
  - split; [constructor | reflexivity].
  - destruct (p c) eqn:E.
    + rewrite IH. split; [constructor; assumption | inversion 1; assumption].
    + split; [discriminate | inversion 1; congruence].
Qed.

Lemma skip_head (p : ascii -> bool) (s : str) (c : ascii) (r : str) :
  skip p s = c :: r -> p c = false.
Proof.
  induction s as [|x s IH]; cbn [skip]; [discriminate|].
  destruct (p x) eqn:E; [exact IH|]. intros [= -> _]. exact E.
Qed.

Lemma plus_run (p : ascii -> bool) (s r : str) :
  Re.plus p s = Some r -> r = skip p s /\ run p s <> [].
Proof.
  unfold Re.plus. destruct s as [|c s]; [discriminate|]. cbn [skip run].
  destruct (p c); [|discriminate]. intros [= <-].
  split; [reflexivity | discriminate].
Qed.

Lemma rstrip_with_prefix (p : ascii -> bool) (s : str) :
  exists w, s = rstrip_with p s ++ w.
Proof.
  unfold rstrip_with. destruct (skip_suffix p (rev s)) as (w & E).
  exists (rev w). rewrite <- rev_app_distr, <- E, rev_involutive. reflexivity.
Qed.

Lemma strip_inside (s : str) : exists a b, s = a ++ strip s ++ b.
Proof.
  unfold strip, lstrip_with.
  destruct (skip_suffix isspace s) as (a & E).
  destruct (rstrip_with_prefix isspace (skip isspace s)) as (b & E').
  exists a, b. rewrite <- E'. exact E.
Qed.

Lemma whitespace_run_inv (s repl rest : str) :
  whitespace_run s = Some (repl, rest) ->
  repl = [space]
  /\ exists w, w <> [] /\ Forall (fun c => isspace c = true) w /\ s = w ++ rest
       /\ match rest with
          | c :: _ => isspace c = false
          | [] => True
          end.
Proof.
  unfold whitespace_run.
  destruct (Re.plus isspace s) as [r|] eqn:E; bind; [|discriminate].
  intros [= <- <-]. split; [reflexivity|].
  apply plus_run in E as [-> Hne]. exists (run isspace s).
  split; [exact Hne|]. split; [apply run_all|].
  split; [symmetry; apply run_skip|].
  destruct (skip isspace s) as [|c r'] eqn:Hs; [exact I|].
  apply (skip_head isspace s c r' Hs).
Qed.

Lemma whitespace_run_consumes (s repl rest : str) :
  whitespace_run s = Some (repl, rest) -> exists x, x <> [] /\ s = x ++ rest.
Proof.
  intros H. apply whitespace_run_inv in H as (_ & w & Hne & _ & E & _).
  exists w. auto.
Qed.

Lemma whitespace_run_none (c : ascii) (r : str) :
  whitespace_run (c :: r) = None -> isspace c = false.
Proof.
  unfold whitespace_run. cbn [Re.plus].
  destruct (isspace c); bind; [discriminate | reflexivity].
Qed.

Lemma code_fence_inv (s repl rest : str) :
  code_fence s = Some (repl, rest) ->
  repl = [] /\ exists x, s = lit "```" ++ x ++ rest.
Proof.
  unfold code_fence.
  destruct (Re.literal (lit "```sql") s) as [r|] eqn:E.
  - intros [= <- <-]. split; [reflexivity|].
    apply literal_inv in E. exists (lit "sql"). exact E.
  - destruct (Re.literal (lit "```") s) as [r|] eqn:E'; [|discriminate].
    intros [= <- <-]. split; [reflexivity|].
    apply literal_inv in E'. exists []. exact E'.
Qed.

Lemma code_fence_consumes (s repl rest : str) :
  code_fence s = Some (repl, rest) -> exists x, x <> [] /\ s = x ++ rest.
Proof.
  intros H. apply code_fence_inv in H as (_ & x & ->).
  exists (lit "```" ++ x). split; [discriminate|].
  rewrite <- app_assoc. reflexivity.
Qed.

Lemma code_fence_none (s : str) :
  code_fence s = None -> Re.literal (lit "```") s = None.
Proof.
  unfold code_fence.
  destruct (Re.literal (lit "```sql") s); [discriminate|].
  destruct (Re.literal (lit "```") s); [discriminate | reflexivity].
Qed.

Lemma like_rewrite_inv (s repl rest : str) :
  like_rewrite s = Some (repl, rest) ->
  exists column w1 w2 pattern,
    s = column ++ w1 ++ lit "LIKE" ++ w2 ++ lit "'%" ++ pattern ++ lit "%'"
        ++ rest
    /\ column <> [] /\ Forall (fun c => isword c = true) column
    /\ Forall (fun c => isspace c = true) w1
    /\ Forall (fun c => isspace c = true) w2
    /\ pattern <> [] /\ ~ In quote pattern
    /\ repl = fix_like_pattern column pattern.
Proof.
  unfold like_rewrite, like_match.
  destruct (Re.plus isword s) as [r1|] eqn:E1; bind; [|discriminate].
  destruct (Re.plus isspace r1) as [r2|] eqn:E2; bind; [|discriminate].
  destruct (Re.literal (lit "LIKE") r2) as [r3|] eqn:E3; bind; [|discriminate].
  destruct (Re.plus isspace r3) as [r4|] eqn:E4; bind; [|discriminate].
  destruct (Re.literal (lit "'%") r4) as [r5|] eqn:E5; bind; [|discriminate].
  destruct (lazy_pattern r5) as [[p rest']|] eqn:E6; bind; [|discriminate].
  intros [= <- <-].
  apply plus_run in E1 as [-> Hcol].
  apply plus_run in E2 as [-> _].
  apply literal_inv in E3. apply plus_run in E4 as [-> _].
  apply literal_inv in E5.
  apply lazy_pattern_inv in E6 as (E6 & Hp & Hq).
  exists (run isword s), (run isspace (skip isword s)), (run isspace r3), p.
  split.
  - rewrite <- E6, <- E5, run_skip, <- E3, run_skip, run_skip. reflexivity.
  - repeat split; auto using run_all.
Qed.

Lemma like_rewrite_consumes (s repl rest : str) :
  like_rewrite s = Some (repl, rest) -> exists x, x <> [] /\ s = x ++ rest.
Proof.
  intros H.
  apply like_rewrite_inv in H as (col & w1 & w2 & p & -> & Hne & _).
  exists (col ++ w1 ++ lit "LIKE" ++ w2 ++ lit "'%" ++ p ++ lit "%'").
  split; [destruct col; [done | discriminate]|].
  rewrite <- !app_assoc. reflexivity.
Qed.

(** *** Which characters a replacement can hold *)

Lemma split_at_in (p : ascii -> bool) (s x : str) (c : ascii) :
  In x (split_at p s) -> In c x -> In c s.
Proof.
  revert x. induction s as [|d s IH]; cbn [split_at]; intros x.
  - intros [<-|[]] [].
  - destruct (p d).
    + intros [<-|Hx] Hc; [destruct Hc|]. right. apply (IH x Hx Hc).
    + destruct (split_at p s) as [|h t] eqn:E.
      * intros [<-|[]] [<-|[]]. left. reflexivity.
      * intros [<-|Hx] Hc.
        -- destruct Hc as [<-|Hc]; [left; reflexivity|].
           right. apply (IH h); [left; reflexivity | exact Hc].
        -- right. apply (IH x); [right; exact Hx | exact Hc].
Qed.

Lemma like_clause_chars (c : ascii) (column term : str) :
  In c (like_clause column term) ->
  In c column \/ In c term \/ In c (lit " LIKE '%").
Proof.
  unfold like_clause. rewrite !in_app_iff. intros [H|[H|[H|H]]]; auto.
  right. right. vm_compute in H. vm_compute. tauto.
Qed.

Lemma fix_like_pattern_chars (c : ascii) (column pattern : str) :
  In c (fix_like_pattern column pattern) ->
  In c column \/ In c pattern \/ In c (lit "( AND LIKE '%)").
Proof.
  assert (Hclause : forall term,
             In c (like_clause column term) ->
             In c column \/ In c term \/ In c (lit "( AND LIKE '%)")).
  { intros term H. apply like_clause_chars in H as [H|[H|H]]; auto.
    right. right. vm_compute in H. vm_compute. tauto. }
  unfold fix_like_pattern.
  destruct (contains percent pattern); [|apply Hclause].
  destruct (1 <? length (List.filter nonempty (split_on percent pattern)));
    [|apply Hclause].
  rewrite !in_app_iff. intros [H|[H|H]].
  - right. right. vm_compute in H. vm_compute. tauto.
  - apply join_in in H as [H|(x & Hx & Hc)].
    + right. right. vm_compute in H. vm_compute. tauto.
    + apply in_map_iff in Hx as (term & <- & Hterm).
      apply filter_In in Hterm as [Hterm _].
      apply Hclause in Hc as [Hc|[Hc|Hc]]; auto.
      right. left. apply (split_at_in _ _ _ _ Hterm Hc).
  - right. right. vm_compute in H. vm_compute. tauto.
Qed.

(** *** Statements through [re.sub] *)

Section Statements.

Variable m : str -> option (str * str).

Hypothesis consumes :
  forall s repl rest,
    m s = Some (repl, rest) -> exists x, x <> [] /\ s = x ++ rest.

Hypothesis replacement_free :
  forall x rest repl,
    m (x ++ rest) = Some (repl, rest) -> ~ In semicolon x ->
    ~ In semicolon repl.

Hypothesis match_end :
  forall x rest repl,
    m (x ++ rest) = Some (repl, rest) -> forall x', x <> x' ++ [semicolon].

Lemma sub_statement (s : str) :
  (s = [] -> Re.sub m s = [])
  /\ (~ In semicolon s -> ~ In semicolon (Re.sub m s))
  /\ (single_statement s -> single_statement (Re.sub m s)).
Proof.
  apply (sub_induction m consumes
           (fun s out =>
              (s = [] -> out = [])
              /\ (~ In semicolon s -> ~ In semicolon out)
              /\ (single_statement s -> single_statement out))).
  - split; [|split]; auto.
  - intros c r out _ (H1 & H2 & H3). split; [discriminate|split].
    + intros Hn [->|Hin]; [apply Hn; left; reflexivity|].
      apply H2; [|exact Hin]. intros Hr. apply Hn. right. exact Hr.
    + intros (body & E & Hb). destruct body as [|b body].
      * injection E as -> ->. rewrite (H1 eq_refl). exists []. auto.
      * injection E as -> ->.
        destruct H3 as (ob & -> & Hob).
        { exists body. split; [reflexivity|].
          intros Hin. apply Hb. right. exact Hin. }
        exists (b :: ob). split; [reflexivity|].
        intros [->|Hin]; [apply Hb; left; reflexivity | exact (Hob Hin)].
  - intros x rest repl out Hne Hm (H1 & H2 & H3). split; [|split].
    + intros E. apply app_eq_nil in E as [-> _]. done.
    + intros Hn Hin. apply in_app_or in Hin as [Hin|Hin].
      * apply (replacement_free x rest repl Hm); [|exact Hin].
        intros Hx. apply Hn, in_or_app. left. exact Hx.
      * apply H2; [|exact Hin].
        intros Hr. apply Hn, in_or_app. right. exact Hr.
    + intros (body & E & Hb).
      destruct rest as [|d rest'] using rev_ind.
      * rewrite app_nil_r in E. exfalso. exact (match_end x [] repl Hm body E).
      * clear IHrest'. rewrite app_assoc in E.
        apply app_inj_tail in E as [<- ->].
        destruct H3 as (ob & -> & Hob).
        { exists rest'. split; [reflexivity|].
          intros Hin. apply Hb, in_or_app. right. exact Hin. }
        exists (repl ++ ob). split; [rewrite app_assoc; reflexivity|].
        intros Hin. apply in_app_or in Hin as [Hin|Hin]; [|exact (Hob Hin)].
        apply (replacement_free x (rest' ++ [semicolon]) repl Hm); [|exact Hin].
        intros Hx. apply Hb, in_or_app. left. exact Hx.
Qed.

End Statements.

Lemma whitespace_statement (s : str) :
  (~ In semicolon s -> ~ In semicolon (Re.sub whitespace_run s))
  /\ (single_statement s -> single_statement (Re.sub whitespace_run s)).
Proof.
  apply (sub_statement whitespace_run whitespace_run_consumes).
  - intros x rest repl H _. apply whitespace_run_inv in H as (-> & _).
    intros [H|[]]. discriminate H.
  - intros x rest repl H x' ->.
    apply whitespace_run_inv in H as (_ & w & _ & Hw & E & _).
    apply app_inv_tail in E. subst w.
    apply Forall_app in Hw as [_ Hw]. inversion Hw as [|? ? Hc _].
    discriminate Hc.
Qed.

Lemma like_statement (s : str) :
  (~ In semicolon s -> ~ In semicolon (Re.sub like_rewrite s))
  /\ (single_statement s -> single_statement (Re.sub like_rewrite s)).
Proof.
  apply (sub_statement like_rewrite like_rewrite_consumes).
  - intros x rest repl H Hx.
    apply like_rewrite_inv in H
      as (col & w1 & w2 & p & E & _ & _ & _ & _ & _ & _ & ->).
    assert (Ex : x = col ++ w1 ++ lit "LIKE" ++ w2 ++ lit "'%" ++ p ++ lit "%'").
    { apply (app_inv_tail rest). rewrite E, <- !app_assoc. reflexivity. }
    intros Hin. apply fix_like_pattern_chars in Hin as [Hin|[Hin|Hin]].
    + apply Hx. rewrite Ex. apply in_or_app. left. exact Hin.
    + apply Hx. rewrite Ex, !in_app_iff. auto 10.
    + vm_compute in Hin. repeat destruct Hin as [Hin|Hin]; try discriminate Hin.
      exact Hin.
  - intros x rest repl H x' ->.
    apply like_rewrite_inv in H
      as (col & w1 & w2 & p & E & _ & _ & _ & _ & _ & _ & _).
    assert (Ex : x' ++ [semicolon]
                 = (col ++ w1 ++ lit "LIKE" ++ w2 ++ lit "'%" ++ p ++ [percent])
                   ++ [quote]).
    { apply (app_inv_tail rest). rewrite E, <- !app_assoc. reflexivity. }
    apply app_inj_tail in Ex as [_ Ex]. discriminate Ex.
Qed.

(** *** Statements through the other steps *)

Lemma statement_count (s : str) :
  single_statement s ->
  count semicolon s = 1 /\ endswith semicolon s = true.
Proof.
  intros (body & -> & Hb). split; [|apply endswith_app_char].
  rewrite count_app. unfold count at 1.
  rewrite (proj1 (count_occ_not_In ascii_dec body semicolon) Hb).
  reflexivity.
Qed.

Lemma endswith_app_char_ne (c d : ascii) (s : str) :
  d <> c -> endswith c (s ++ [d]) = false.
Proof.
  intros H. unfold endswith. rewrite rev_app_distr. cbn [rev app].
  apply Ascii.eqb_neq. exact H.
Qed.

Lemma endswith_in (c : ascii) (s : str) : endswith c s = true -> In c s.
Proof.
  unfold endswith. destruct (rev s) as [|x r] eqn:E; [discriminate|].
  intros H. apply Ascii.eqb_eq in H as ->.
  apply in_rev. rewrite E. left. reflexivity.
Qed.

Lemma strip_statement (s : str) :
  (~ In semicolon s -> ~ In semicolon (strip s))
  /\ (single_statement s -> single_statement (strip s)).
Proof.
  split.
  - intros Hn Hin. destruct (strip_inside s) as (a & b & E).
    apply Hn. rewrite E, !in_app_iff. auto.
  - intros (body & -> & Hb). unfold strip, lstrip_with.
    change (body ++ [semicolon]) with (body ++ semicolon :: []).
    rewrite (skip_app_stop isspace body semicolon [] eq_refl).
    rewrite (rstrip_with_keep isspace _ semicolon [] eq_refl).
    exists (skip isspace body). split; [reflexivity|].
    destruct (skip_suffix isspace body) as (w & E).
    intros Hin. apply Hb. rewrite E. apply in_or_app. right. exact Hin.
Qed.

Lemma finish_statement (s : str) :
  ~ In semicolon s \/ single_statement s ->
  single_statement (ensure_semicolon (fix_quotes s)).
Proof.
  assert (Hsnoc : forall body, ~ In semicolon body ->
                    single_statement (ensure_semicolon (body ++ [semicolon]))).
  { intros body Hb. unfold ensure_semicolon.
    rewrite endswith_app_char. cbn [negb]. exists body. auto. }
  assert (Hfree : forall body, ~ In semicolon body ->
                    single_statement (ensure_semicolon body)).
  { intros body Hb. unfold ensure_semicolon.
    destruct (endswith semicolon body) eqn:E; cbn [negb].
    - apply endswith_in in E. done.
    - exists body. auto. }
  assert (Hrepair : forall body, ~ In semicolon body ->
            single_statement
              (ensure_semicolon
                 (if negb (endswith semicolon (body ++ lit "'"))
                  then (body ++ lit "'") ++ lit ";" else body ++ lit "'"))).
  { intros body Hb.
    change (lit "'") with [quote]. rewrite endswith_app_char_ne by discriminate.
    cbn [negb]. apply Hsnoc. intros Hin.
    apply in_app_or in Hin as [Hin|[Hin|[]]]; [exact (Hb Hin) | discriminate Hin]. }
  intros [Hs|(body & -> & Hb)]; unfold fix_quotes.
  - destruct (Nat.odd (count quote s)); [|apply Hfree; exact Hs].
    apply Hrepair. destruct (rstrip_with_prefix
                               (fun c => existsb (Ascii.eqb c) (lit ";'")) s)
      as (w & E).
    intros Hin. apply Hs. rewrite E. apply in_or_app. left. exact Hin.
  - destruct (Nat.odd (count quote (body ++ [semicolon])));
      [|apply Hsnoc; exact Hb].
    apply Hrepair. unfold rstrip.
    rewrite (rstrip_with_all _ body [semicolon])
      by (constructor; [reflexivity | constructor]).
    destruct (rstrip_with_prefix
                (fun c => existsb (Ascii.eqb c) (lit ";'")) body) as (w & E).
    intros Hin. apply Hb. rewrite E. apply in_or_app. left. exact Hin.
Qed.

(** *** What [extract_sql_query] finds *)

Lemma search_here {A} (m : str -> option A) (s : str) (r : A) :
  m s = Some r -> Re.search m s = Some r.
Proof. intros H. destruct s; cbn [Re.search]; rewrite H; reflexivity. Qed.

Lemma search_inv {A} (m : str -> option A) (s : str) (q : A) :
  Re.search m s = Some q -> exists a b, s = a ++ b /\ m b = Some q.
Proof.
  induction s as [|c s IH]; cbn [Re.search].
  - destruct (m []) eqn:E; [|discriminate]. intros [= <-]. exists [], []. auto.
  - destruct (m (c :: s)) eqn:E.
    + intros [= <-]. exists [], (c :: s). auto.
    + intros H. destruct (IH H) as (a & b & -> & Hb). exists (c :: a), b. auto.
Qed.

Lemma upto_semicolon_inv (s rest : str) :
  upto_semicolon s = Some rest ->
  exists mid, s = mid ++ semicolon :: rest /\ ~ In semicolon mid.
Proof.
  induction s as [|c s IH]; cbn [upto_semicolon]; [discriminate|].
  destruct (Ascii.eqb_spec c semicolon) as [->|Hc].
  - intros [= <-]. exists []. auto.
  - intros H. destruct (IH H) as (mid & -> & Hmid). exists (c :: mid).
    split; [reflexivity|]. intros [E|Hin]; [exact (Hc E) | exact (Hmid Hin)].
Qed.

Lemma upto_semicolon_none (s : str) :
  upto_semicolon s = None -> ~ In semicolon s.
Proof.
  induction s as [|c s IH]; cbn [upto_semicolon]; [auto|].
  destruct (Ascii.eqb_spec c semicolon) as [->|Hc]; [discriminate|].
  intros H [E|Hin]; [exact (Hc E) | exact (IH H Hin)].
Qed.

Lemma keyword_free (k w : str) :
  Forall (fun p => isword p = true) k ->
  Forall2 (fun p c => ieqb p c = true) k w -> ~ In semicolon w.
Proof.
  intros Hk H. induction H as [|p c k w Hpc _ IH]; [auto|].
  inversion Hk as [|? ? Hp Hk']; subst.
  intros [->|Hin]; [|exact (IH Hk' Hin)].
  apply ieqb_classes in Hpc as (_ & _ & Hw). rewrite Hp in Hw. discriminate Hw.
Qed.

Lemma whitespace_free (w : str) :
  Forall (fun c => isspace c = true) w -> ~ In semicolon w.
Proof.
  intros Hw Hin. rewrite Forall_forall in Hw.
  apply list_elem_of_In in Hin. apply Hw in Hin. discriminate Hin.
Qed.

Lemma select_word : Forall (fun p => isword p = true) (lit "SELECT").
Proof. repeat constructor. Qed.

Lemma select_statement_inv (s q : str) :
  select_statement s = Some q ->
  single_statement q
  /\ (exists rest, s = q ++ rest)
  /\ is_Some (Re.literal_i (lit "SELECT") q).
Proof.
  unfold select_statement.
  destruct (Re.literal_i (lit "SELECT") s) as [r1|] eqn:E1; bind; [|discriminate].
  destruct (Re.plus isspace r1) as [r2|] eqn:E2; bind; [|discriminate].
  destruct (upto_semicolon r2) as [rest|] eqn:E3; bind; [|discriminate].
  intros [= <-].
  apply literal_i_inv in E1 as (kw & -> & Hkw).
  apply plus_inv in E2 as (w & _ & Hw & ->).
  apply upto_semicolon_inv in E3 as (mid & -> & Hmid).
  assert (E : kw ++ w ++ mid ++ semicolon :: rest
              = (kw ++ w ++ mid ++ [semicolon]) ++ rest)
    by (rewrite <- !app_assoc; reflexivity).
  rewrite E. unfold Re.matched.
  replace (length ((kw ++ w ++ mid ++ [semicolon]) ++ rest) - length rest)
    with (length (kw ++ w ++ mid ++ [semicolon]))
    by (rewrite (length_app _ rest); lia).
  rewrite take_app_length. repeat split.
  - exists (kw ++ w ++ mid). split; [rewrite <- !app_assoc; reflexivity|].
    rewrite !in_app_iff. intros [H|[H|H]]; [|exact (whitespace_free w Hw H)|auto].
    exact (keyword_free _ _ select_word Hkw H).
  - exists rest. reflexivity.
  - rewrite (literal_i_app _ _ _ Hkw). eexists. reflexivity.
Qed.

Lemma code_fence_chars (s : str) (c : ascii) :
  In c (Re.sub code_fence s) -> In c s.
Proof.
  revert c.
  apply (sub_induction code_fence code_fence_consumes
           (fun s out => forall c, In c out -> In c s)).
  - auto.
  - intros d r out _ IH c [->|Hin]; [left; reflexivity|]. right. auto.
  - intros x rest repl out _ Hm IH c Hin.
    apply code_fence_inv in Hm as (-> & _). apply in_or_app. right. auto.
Qed.

Lemma extract_statement (text : str) :
  is_Some (Re.search select_statement text) \/ ~ In semicolon text ->
  ~ In semicolon (extract_sql_query text)
  \/ single_statement (extract_sql_query text).
Proof.
  unfold extract_sql_query.
  destruct (Re.search select_statement text) as [q|] eqn:E.
  - intros _. right. apply search_inv in E as (a & b & _ & Hb).
    apply select_statement_inv in Hb as [Hq _]. exact Hq.
  - intros [[q Hq]|Hn]; [discriminate Hq|]. left.
    intros Hin. apply (proj1 (strip_statement _)) in Hin; [exact Hin|].
    intros Hc. apply Hn. apply code_fence_chars. exact Hc.
Qed.

Lemma clean_sql_statement (text : str) :
  is_Some (Re.search select_statement text) \/ ~ In semicolon text ->
  single_statement (clean_sql text).
Proof.
  intros H. apply extract_statement in H.
  unfold clean_sql, like_fixed, collapsed. apply finish_statement.
  destruct H as [H|H]; [left|right].
  - apply like_statement, strip_statement, whitespace_statement, H.
  - apply like_statement, strip_statement, whitespace_statement, H.
Qed.

Lemma valid_statement (sql_text : str) :
  DeepSeek.valid_sql_format sql_text = true ->
  is_Some (Re.search select_statement sql_text) \/ ~ In semicolon sql_text.
Proof.
  unfold DeepSeek.valid_sql_format.
  destruct (Re.literal_i (lit "SELECT") sql_text) as [r1|] eqn:E1; bind;
    [|discriminate].
  destruct (Re.plus isspace r1) as [r2|] eqn:E2; bind; [|discriminate].
  intros _.
  destruct (upto_semicolon r2) as [rest|] eqn:E3.
  - left. eexists. apply search_here. unfold select_statement.
    rewrite E1. bind. rewrite E2. bind. rewrite E3. reflexivity.
  - right. apply upto_semicolon_none in E3.
    apply literal_i_inv in E1 as (kw & -> & Hkw).
    apply plus_inv in E2 as (w & _ & Hw & ->).
    rewrite !in_app_iff. intros [H|[H|H]]; [|exact (whitespace_free w Hw H)|auto].
    exact (keyword_free _ _ select_word Hkw H).
Qed.

(** X1.  When the text holds a SELECT statement (the pattern of line 5
    matches somewhere), or holds no semicolon at all, [clean_sql] returns
    one statement: its only semicolon is its last character.  Whatever
    followed the first statement in the text is gone. *)
Theorem clean_sql_single_statement (sql_text : str) :
  is_Some (Re.search select_statement sql_text) \/ ~ In semicolon sql_text ->
  count semicolon (clean_sql sql_text) = 1
  /\ endswith semicolon (clean_sql sql_text) = true.
Proof. intros H. apply statement_count, clean_sql_statement, H. Qed.

Lemma clean_sql_single_statement_witness :
  count semicolon (clean_sql Samples.stacked_reply) = 1
  /\ endswith semicolon (clean_sql Samples.stacked_reply) = true.
Proof.
  apply (clean_sql_single_statement Samples.stacked_reply).
  left. vm_compute. eexists. reflexivity.
Defined.

(** *** Code fences *)

Lemma fence_free_app_r (a b : str) :
  fence_free (a ++ b) = true -> fence_free b = true.
Proof.
  induction a as [|c a IH]; [auto|]. cbn [app fence_free].
  destruct (Re.literal (lit "```") (c :: a ++ b)); [discriminate | exact IH].
Qed.

Lemma fence_free_app_l (a b : str) :
  fence_free (a ++ b) = true -> fence_free a = true.
Proof.
  induction a as [|c a IH]; [reflexivity|]. cbn [app fence_free].
  destruct (Re.literal (lit "```") (c :: a ++ b)) eqn:E; [discriminate|].
  intros H. destruct (Re.literal (lit "```") (c :: a)) eqn:E'; [|exact (IH H)].
  apply literal_inv in E'. change (c :: a ++ b) with ((c :: a) ++ b) in E.
  rewrite E', <- app_assoc, literal_app in E. discriminate E.
Qed.

Lemma sub_code_fence_free (s : str) :
  fence_free (Re.sub code_fence s) = true.
Proof.
  pose (bq := "`"%char).
  enough (H : fence_free (Re.sub code_fence s) = true
              /\ (forall t, Re.sub code_fence s = bq :: t ->
                            exists t', s = bq :: t')
              /\ (forall t, Re.sub code_fence s = bq :: bq :: t ->
                            exists t', s = bq :: bq :: t'))
    by apply H.
  apply (sub_induction code_fence code_fence_consumes
           (fun s out =>
              fence_free out = true
              /\ (forall t, out = bq :: t -> exists t', s = bq :: t')
              /\ (forall t, out = bq :: bq :: t -> exists t', s = bq :: bq :: t'))).
  - split; [reflexivity|]. split; intros t E; discriminate E.
  - intros c r out Hm (H0 & H1 & H2). split; [|split].
    + cbn [fence_free].
      destruct (Re.literal (lit "```") (c :: out)) as [t|] eqn:E; [|exact H0].
      exfalso. apply literal_inv in E.
      change (lit "```" ++ t) with (bq :: bq :: bq :: t) in E.
      injection E as -> E. destruct (H2 t E) as (t' & ->).
      apply code_fence_none in Hm. discriminate Hm.
    + intros t [= -> _]. eexists. reflexivity.
    + intros t [= -> E]. destruct (H1 t E) as (t' & ->). eexists. reflexivity.
  - intros x rest repl out _ Hm (H0 & H1 & H2).
    apply code_fence_inv in Hm as (-> & y & E).
    rewrite E. change (lit "```" ++ y ++ rest) with (bq :: bq :: bq :: y ++ rest).
    split; [exact H0|]. split; intros t _; eexists; reflexivity.
Qed.

(** X2.  [extract_sql_query] has two outcomes.  Either it returns a piece of
    the text that begins with the keyword SELECT (in any case) and whose
    only semicolon is its last character; or the text holds no such
    statement, and what it returns holds no code-fence marker: the removal
    of line 10 leaves no three backquotes in a row, not even ones brought
    together by the removal. *)
Theorem extract_sql_query_result (text : str) :
  (exists before after,
      text = before ++ extract_sql_query text ++ after
      /\ is_Some (Re.literal_i (lit "SELECT") (extract_sql_query text))
      /\ count semicolon (extract_sql_query text) = 1
      /\ endswith semicolon (extract_sql_query text) = true)
  \/ (Re.search select_statement text = None
      /\ fence_free (extract_sql_query text) = true).
Proof.
  unfold extract_sql_query.
  destruct (Re.search select_statement text) as [q|] eqn:E.
  - left. apply search_inv in E as (a & b & -> & Hb).
    apply select_statement_inv in Hb as (Hq & (rest & ->) & Hkw).
    exists a, rest. split; [reflexivity|]. split; [exact Hkw|].
    apply statement_count, Hq.
  - right. split; [reflexivity|].
    destruct (strip_inside (Re.sub code_fence text)) as (a & b & Es).
    pose proof (sub_code_fence_free text) as H. rewrite Es in H.
    apply fence_free_app_r, fence_free_app_l in H. exact H.
Qed.

(** *** Quotes through the LIKE rewrite *)

Lemma count_none (c : ascii) (s : str) : ~ In c s <-> count c s = 0.
Proof. unfold count. apply count_occ_not_In. Qed.

Lemma word_no_quote (w : str) :
  Forall (fun c => isword c = true) w -> count quote w = 0.
Proof.
  intros Hw. apply count_none. intros Hin. rewrite Forall_forall in Hw.
  apply list_elem_of_In in Hin. apply Hw in Hin. discriminate Hin.
Qed.

Lemma space_no_quote (w : str) :
  Forall (fun c => isspace c = true) w -> count quote w = 0.
Proof.
  intros Hw. apply count_none. intros Hin. rewrite Forall_forall in Hw.
  apply list_elem_of_In in Hin. apply Hw in Hin. discriminate Hin.
Qed.

Lemma like_clause_quotes (column term : str) :
  count quote column = 0 -> count quote term = 0 ->
  count quote (like_clause column term) = 2.
Proof.
  intros Hc Ht. unfold like_clause. rewrite !count_app, Hc, Ht. reflexivity.
Qed.

Lemma join_quotes (sep : str) (l : list str) :
  count quote sep = 0 -> Forall (fun x => count quote x = 2) l ->
  Nat.even (count quote (join sep l)) = true.
Proof.
  intros Hsep Hl. induction Hl as [|x l Hx Hl IH]; [reflexivity|].
  destruct l as [|y l].
  - cbn [join]. rewrite Hx. reflexivity.
  - change (join sep (x :: y :: l)) with (x ++ sep ++ join sep (y :: l)).
    rewrite !count_app, Hx, Hsep, !Nat.even_add, IH. reflexivity.
Qed.

Lemma fix_like_pattern_quotes (column pattern : str) :
  Forall (fun c => isword c = true) column -> ~ In quote pattern ->
  Nat.even (count quote (fix_like_pattern column pattern)) = true.
Proof.
  intros Hcol Hpat. pose proof (word_no_quote column Hcol) as Hc.
  assert (Hclause : Nat.even (count quote (like_clause column pattern)) = true).
  { rewrite like_clause_quotes; [reflexivity | exact Hc|].
    apply count_none, Hpat. }
  unfold fix_like_pattern.
  destruct (contains percent pattern); [|exact Hclause].
  destruct (1 <? length (List.filter nonempty (split_on percent pattern)));
    [|exact Hclause].
  rewrite !count_app, !Nat.even_add. rewrite join_quotes; [reflexivity..|].
  apply Forall_forall. intros x Hx. apply list_elem_of_In in Hx.
  apply in_map_iff in Hx as (term & <- & Hterm).
  apply filter_In in Hterm as [Hterm _].
  apply like_clause_quotes; [exact Hc|]. apply count_none.
  intros Hq. apply Hpat. apply (split_at_in _ _ _ _ Hterm Hq).
Qed.

Lemma like_sub_quote_parity (s : str) :
  Nat.odd (count quote (Re.sub like_rewrite s)) = Nat.odd (count quote s).
Proof.
  apply (sub_induction like_rewrite like_rewrite_consumes
           (fun s out => Nat.odd (count quote out) = Nat.odd (count quote s))).
  - reflexivity.
  - intros c r out _ IH.
    change (c :: out) with ([c] ++ out). change (c :: r) with ([c] ++ r).
    rewrite !count_app, !Nat.odd_add, IH. reflexivity.
  - intros x rest repl out _ Hm IH.
    apply like_rewrite_inv in Hm
      as (col & w1 & w2 & p & E & _ & Hcol & Hw1 & Hw2 & _ & Hq & ->).
    rewrite E, !count_app, !Nat.odd_add, IH.
    rewrite (word_no_quote col Hcol), (space_no_quote w1 Hw1),
      (space_no_quote w2 Hw2), (proj1 (count_none quote p) Hq).
    rewrite <- Nat.negb_even, (fix_like_pattern_quotes col p Hcol Hq).
    destruct (Nat.odd (count quote rest)); reflexivity.
Qed.

(** X3.  The LIKE rewrite of line 37 never changes whether the number of
    single quotes is odd: a matched clause holds two, and what replaces it
    holds two for each of its conditions.  So the quote repair of line 40
    runs exactly when the text had an odd number of quotes before the
    rewrite. *)
Theorem like_rewrite_keeps_quote_parity (sql_text : str) :
  Nat.odd (count quote (like_fixed sql_text))
  = Nat.odd (count quote (collapsed sql_text)).
Proof. apply like_sub_quote_parity. Qed.

(** *** The whitespace clean-up *)

Lemma single_spaced_app_r (a b : str) :
  single_spaced (a ++ b) = true -> single_spaced b = true.
Proof.
  induction a as [|c a IH]; [auto|]. cbn [app single_spaced].
  intros H. apply andb_true_iff in H as [_ H]. exact (IH H).
Qed.

Lemma single_spaced_app_l (a b : str) :
  single_spaced (a ++ b) = true -> single_spaced a = true.
Proof.
  induction a as [|c a IH]; [reflexivity|]. cbn [app single_spaced].
  intros H. apply andb_true_iff in H as [Hc H]. rewrite (IH H), andb_true_r.
  destruct (isspace c); [|reflexivity].
  apply andb_true_iff in Hc as [-> Hc]. destruct a; [reflexivity | exact Hc].
Qed.

Lemma sub_whitespace_single_spaced (s : str) :
  single_spaced (Re.sub whitespace_run s) = true.
Proof.
  enough (H : single_spaced (Re.sub whitespace_run s) = true
              /\ (forall d t, Re.sub whitespace_run s = d :: t ->
                    isspace d = true ->
                    exists c r, s = c :: r /\ isspace c = true))
    by apply H.
  apply (sub_induction whitespace_run whitespace_run_consumes
           (fun s out =>
              single_spaced out = true
              /\ (forall d t, out = d :: t -> isspace d = true ->
                    exists c r, s = c :: r /\ isspace c = true))).
  - split; [reflexivity|]. intros d t E. discriminate E.
  - intros c r out Hm [H0 H1]. apply whitespace_run_none in Hm. split.
    + cbn [single_spaced]. rewrite Hm, H0. reflexivity.
    + intros d t [= <- _] Hd. congruence.
  - intros x rest repl out _ Hm [H0 H1].
    apply whitespace_run_inv in Hm as (-> & w & Hne & Hw & E & Hrest).
    apply app_inv_tail in E. subst w. split.
    + cbn [app single_spaced]. rewrite H0, andb_true_r.
      change (isspace space) with true. cbn match. rewrite Ascii.eqb_refl.
      cbn [andb]. destruct out as [|d t]; [reflexivity|].
      destruct (isspace d) eqn:Hd; [|reflexivity].
      destruct (H1 d t eq_refl Hd) as (c & r & -> & Hc). congruence.
    + intros d t _ _. destruct Hw as [|c w Hc _]; [done|].
      exists c, (w ++ rest). auto.
Qed.

(** X4.  After the whitespace clean-up of line 19 the text is tidy: every
    whitespace character left is a plain space standing alone between two
    other characters, and the text neither begins nor ends with
    whitespace. *)
Theorem collapsed_is_tidy (sql_text : str) :
  single_spaced (collapsed sql_text) = true
  /\ match collapsed sql_text with
     | c :: _ => isspace c = false
     | [] => True
     end
  /\ match last (collapsed sql_text) with
     | Some c => isspace c = false
     | None => True
     end.
Proof.
  unfold collapsed. set (t := Re.sub whitespace_run (extract_sql_query sql_text)).
  split; [|split].
  - destruct (strip_inside t) as (a & b & E).
    pose proof (sub_whitespace_single_spaced (extract_sql_query sql_text)) as H.
    fold t in H. rewrite E in H.
    apply single_spaced_app_r, single_spaced_app_l in H. exact H.
  - unfold strip, lstrip_with.
    destruct (skip isspace t) as [|c' r'] eqn:Hs; [exact I|].
    destruct (rstrip_with_cons isspace c' r') as [->|(b' & ->)]; [exact I|].
    apply (skip_head isspace t c' r' Hs).
  - destruct (strip t) as [|c r] eqn:E using rev_ind; [exact I|].
    rewrite last_snoc. unfold strip, rstrip_with in E.
    apply (f_equal (@rev ascii)) in E.
    rewrite rev_involutive, rev_app_distr in E. cbn [rev app] in E.
    apply (skip_head isspace _ c _ E).
Qed.

(** *** Reading the reply of the synthesiser *)

Lemma strip_idem (s : str) : strip (strip s) = strip s.
Proof.
  unfold strip, lstrip_with.
  assert (H : skip isspace (rstrip_with isspace (skip isspace s))
              = rstrip_with isspace (skip isspace s)).
  { destruct (skip isspace s) as [|c b] eqn:Hs; [reflexivity|].
    pose proof (skip_head isspace s c b Hs) as Hc.
    destruct (rstrip_with_cons isspace c b) as [->|(b' & ->)]; [reflexivity|].
    apply skip_stop, Hc. }
  rewrite H. apply rstrip_with_idem.
Qed.

Lemma strip_fence_free (s : str) :
  fence_free (strip (Re.sub code_fence s)) = true.
Proof.
  destruct (strip_inside (Re.sub code_fence s)) as (a & b & E).
  pose proof (sub_code_fence_free s) as H. rewrite E in H.
  apply fence_free_app_r, fence_free_app_l in H. exact H.
Qed.

Lemma upto_dquote_inv (s g rest : str) :
  DeepSeek.upto_dquote s = Some (g, rest) -> ~ In dquote g.
Proof.
  revert g rest.
  induction s as [|c s IH]; intros g rest; cbn [DeepSeek.upto_dquote];
    [discriminate|].
  destruct (Ascii.eqb_spec c dquote) as [->|Hc].
  - intros [= <- _]. auto.
  - destruct (DeepSeek.upto_dquote s) as [[g' rest']|]; bind; [|discriminate].
    intros [= <- _] [E|Hin]; [exact (Hc E) | exact (IH g' rest' eq_refl Hin)].
Qed.

(** X5.  What [get_sql_from_deepseek] reads from a reply (lines 170 to 179):
    the candidate query text holds no code-fence marker and has no
    whitespace at either end, and a loading line, when one is found, holds
    no double quote and has no whitespace at either end. *)
Theorem parse_response_result (full_response_content : str) :
  fence_free (snd (DeepSeek.parse_response full_response_content)) = true
  /\ strip (snd (DeepSeek.parse_response full_response_content))
     = snd (DeepSeek.parse_response full_response_content)
  /\ match fst (DeepSeek.parse_response full_response_content) with
     | Some loading_line =>
         ~ In dquote loading_line /\ strip loading_line = loading_line
     | None =>
         Re.search DeepSeek.loading_line_match full_response_content = None
     end.
Proof.
  unfold DeepSeek.parse_response.
  destruct (Re.search DeepSeek.loading_line_match full_response_content)
    as [[g r]|] eqn:E; cbn [fst snd].
  - split; [apply strip_fence_free|]. split; [apply strip_idem|].
    split; [|apply strip_idem].
    apply search_inv in E as (a & b & _ & Hb).
    unfold DeepSeek.loading_line_match in Hb.
    destruct (Re.literal (lit "loading_line:") b) as [r1|]; cbn [mbind option_bind] in Hb;
      [|discriminate].
    destruct (Re.literal [dquote] (Re.star isspace r1)) as [r2|]; cbn [mbind option_bind] in Hb;
      [|discriminate].
    apply upto_dquote_inv in Hb.
    destruct (strip_inside g) as (x & y & Eg).
    intros Hin. apply Hb. rewrite Eg, !in_app_iff. auto.
  - split; [apply strip_fence_free|]. split; [apply strip_idem | reflexivity].
Qed.

End SqlMoreFacts.

(** ** The two caches *)

Module CacheFacts.

Import Char PyStr DeepSeek BookService Reach History TextFacts.

(** What one call of [get_sql_from_deepseek] does to the state. *)
Lemma get_sql_effect (api : reply) (user_query : str) (st : state) :
  let '(r, st') := get_sql_from_deepseek api user_query st in
  filter_cache st' = filter_cache st
  /\ ((exists sql_text loading_line,
         sql_cache st !! user_query = Some (sql_text, loading_line)
         /\ r = Return (sql_text, loading_line, 0%Z) /\ st' = st)
      \/ (sql_cache st !! user_query = None
          /\ posted st' = S (posted st)
          /\ ((sql_cache st' = sql_cache st
               /\ ((exists e, r = Raise e)
                   \/ MAX_CACHE_SIZE <= size (sql_cache st)))
              \/ (exists sql_text loading_line tokens,
                    r = Return (sql_text, loading_line, tokens)
                    /\ size (sql_cache st) < MAX_CACHE_SIZE
                    /\ valid_sql_format sql_text = true
                    /\ sql_cache st'
                       = <[user_query := (sql_text, loading_line)]>
                           (sql_cache st))))).
Proof.
  unfold get_sql_from_deepseek.
  destruct (sql_cache st !! user_query) as [[cached_sql cached_line]|] eqn:Hc.
  - split; [reflexivity|]. left. eauto.
  - destruct api as [| | |content used];
      try (split; [reflexivity|]; right; split; [reflexivity|];
           split; [reflexivity|]; left; split; [reflexivity|]; left; eauto).
    destruct (parse_response (strip content)) as [line candidate].
    assert (Hvalid : forall sql,
              (if negb (valid_sql_format candidate)
               then fallback_sql user_query else Return candidate) = Return sql ->
              valid_sql_format sql = true).
    { intros sql. destruct (valid_sql_format candidate) eqn:Hv; cbn [negb].
      - intros [= <-]. exact Hv.
      - apply SynthesisFacts.fallback_sql_valid. }
    destruct (if negb (valid_sql_format candidate)
              then fallback_sql user_query else Return candidate) as [sql|e].
    + cbn [post sql_cache]. destruct (size (sql_cache st) <? MAX_CACHE_SIZE) eqn:Hlt.
      * split; [reflexivity|]. right. split; [reflexivity|].
        split; [reflexivity|]. right. exists sql, line, used.
        apply Nat.ltb_lt in Hlt. repeat split; auto.
      * split; [reflexivity|]. right. split; [reflexivity|].
        split; [reflexivity|]. left. split; [reflexivity|]. right.
        apply Nat.ltb_ge in Hlt. exact Hlt.
    + split; [reflexivity|]. right. split; [reflexivity|].
      split; [reflexivity|]. left. split; [reflexivity|]. left. eauto.
Qed.

(** What one call of [filter_books_with_deepseek] does to the state. *)
Lemma filter_effect (api : reply) (user_query : str) (books : list Book)
    (st : state) :
  let n := Nat.min 20 (length books) in
  let '(r, st') := filter_books_with_deepseek api user_query books st in
  sql_cache st' = sql_cache st
  /\ ((exists cached,
         filter_cache st !! cache_key user_query books = Some cached
         /\ r = Return cached /\ st' = st)
      \/ (filter_cache st !! cache_key user_query books = None
          /\ posted st' = S (posted st)
          /\ ((filter_cache st' = filter_cache st
               /\ (r = Raise BodyError \/ r = Return (seq 0 n)
                   \/ (MAX_FILTER_CACHE_SIZE <= size (filter_cache st)
                       /\ exists selected, r = Return (valid n selected))))
              \/ (exists selected,
                    r = Return (valid n selected)
                    /\ size (filter_cache st) < MAX_FILTER_CACHE_SIZE
                    /\ filter_cache st'
                       = <[cache_key user_query books := valid n selected]>
                           (filter_cache st))))).
Proof.
  intros n. unfold filter_books_with_deepseek.
  rewrite FilterFacts.books_to_process_length. fold n.
  destruct (filter_cache st !! cache_key user_query books) as [cached|] eqn:Hc.
  - split; [reflexivity|]. left. eauto.
  - assert (Hall : forall r, r = Return (seq 0 n) ->
              sql_cache (post st) = sql_cache st
              /\ ((exists cached, None = Some cached /\ r = Return cached
                                  /\ post st = st)
                  \/ (None = None (A:=list nat)
                      /\ posted (post st) = S (posted st)
                      /\ ((filter_cache (post st) = filter_cache st
                           /\ (r = Raise BodyError \/ r = Return (seq 0 n)
                               \/ (MAX_FILTER_CACHE_SIZE <= size (filter_cache st)
                                   /\ exists selected, r = Return (valid n selected))))
                          \/ (exists selected,
                                r = Return (valid n selected)
                                /\ size (filter_cache st) < MAX_FILTER_CACHE_SIZE
                                /\ filter_cache (post st)
                                   = <[cache_key user_query books := valid n selected]>
                                       (filter_cache st)))))).
    { intros r ->. split; [reflexivity|]. right. split; [reflexivity|].
      split; [reflexivity|]. left. split; [reflexivity|]. right. left.
      reflexivity. }
    destruct api as [| | |content used]; try (apply Hall; reflexivity).
    + split; [reflexivity|]. right. split; [reflexivity|].
      split; [reflexivity|]. left. split; [reflexivity|]. left. reflexivity.
    + destruct (Re.search json_array (strip content)) as [json_match|];
        [|apply Hall; reflexivity].
      destruct (json_loads json_match) as [selected|];
        [|apply Hall; reflexivity].
      cbn [post filter_cache].
      destruct (size (filter_cache st) <? MAX_FILTER_CACHE_SIZE) eqn:Hlt.
      * split; [reflexivity|]. right. split; [reflexivity|].
        split; [reflexivity|]. right. exists selected.
        apply Nat.ltb_lt in Hlt. repeat split; auto.
      * split; [reflexivity|]. right. split; [reflexivity|].
        split; [reflexivity|]. left. split; [reflexivity|]. right. right.
        apply Nat.ltb_ge in Hlt. eauto.
Qed.

(** The state after [recommend_books] is the state after its call of the
    synthesiser, followed or not by its call of the filter. *)
Lemma recommend_state (w : world) (user_query : str) (st : state) :
  let st1 := snd (get_sql_from_deepseek (sql_api w) user_query st) in
  snd (recommend_books w user_query st) = st
  \/ snd (recommend_books w user_query st) = st1
  \/ exists db_results,
       snd (recommend_books w user_query st)
       = snd (filter_books_with_deepseek (filter_api w) user_query db_results st1).
Proof.
  intros st1. unfold recommend_books, st1.
  destruct (cursor_ok w); cbn [negb]; [|left; reflexivity].
  destruct (get_sql_from_deepseek (sql_api w) user_query st)
    as [[[[sql line] used]|e] s1]; [|right; left; reflexivity].
  destruct (execute_sql_query w (SqlUtils.clean_sql sql)) as [[|b db]|];
    try (right; left; reflexivity).
  right. right. exists (b :: db). cbn [snd].
  destruct (filter_books_with_deepseek (filter_api w) user_query (b :: db) s1)
    as [[selected|e] s2].
  - destruct (select_books (b :: db) selected); reflexivity.
  - reflexivity.
Qed.

(** A property kept by the synthesiser and by the filter is kept by every
    sequence of calls. *)
Lemma evolves_invariant (P : state -> Prop) :
  (forall api q st, P st -> P (snd (get_sql_from_deepseek api q st))) ->
  (forall api q books st,
     P st -> P (snd (filter_books_with_deepseek api q books st))) ->
  forall st st', evolves st st' -> P st -> P st'.
Proof.
  intros Hsql Hfilter st st' Hev H0.
  induction Hev as [|api q st' _ IH|api q books st' _ IH|w q st' _ IH].
  - exact H0.
  - apply Hsql, IH.
  - apply Hfilter, IH.
  - destruct (recommend_state w q st') as [->|[->|[db ->]]].
    + exact IH.
    + apply Hsql, IH.
    + apply Hfilter, Hsql, IH.
Qed.

Lemma reachable_evolves (st : state) : reachable st <-> evolves initial st.
Proof.
  split.
  - induction 1.
    + apply evolves_refl.
    + apply evolves_get_sql. assumption.
    + apply evolves_filter. assumption.
    + apply evolves_recommend. assumption.
  - intros H. remember initial as s0 eqn:E. induction H; subst.
    + apply reachable_initial.
    + apply reachable_get_sql. auto.
    + apply reachable_filter. auto.
    + apply reachable_recommend. auto.
Qed.

(** *** Capacity *)

Lemma capacity_get_sql api q st :
  size (sql_cache st) <= MAX_CACHE_SIZE
  /\ size (filter_cache st) <= MAX_FILTER_CACHE_SIZE ->
  size (sql_cache (snd (get_sql_from_deepseek api q st))) <= MAX_CACHE_SIZE
  /\ size (filter_cache (snd (get_sql_from_deepseek api q st)))
     <= MAX_FILTER_CACHE_SIZE.
Proof.
  intros [Hs Hf]. pose proof (get_sql_effect api q st) as H.
  destruct (get_sql_from_deepseek api q st) as [r st']. cbn [snd].
  destruct H as [Hfc H]. rewrite Hfc. split; [|exact Hf].
  destruct H as [(sql & line & _ & _ & ->)
                |(Hmiss & _ & [[-> _]|(sql & line & tok & _ & Hlt & _ & ->)])];
    try exact Hs.
  rewrite (map_size_insert_None _ _ _ Hmiss). lia.
Qed.

Lemma capacity_filter api q books st :
  size (sql_cache st) <= MAX_CACHE_SIZE
  /\ size (filter_cache st) <= MAX_FILTER_CACHE_SIZE ->
  size (sql_cache (snd (filter_books_with_deepseek api q books st)))
    <= MAX_CACHE_SIZE
  /\ size (filter_cache (snd (filter_books_with_deepseek api q books st)))
     <= MAX_FILTER_CACHE_SIZE.
Proof.
  intros [Hs Hf]. pose proof (filter_effect api q books st) as H.
  cbv zeta in H.
  destruct (filter_books_with_deepseek api q books st) as [r st']. cbn [snd].
  destruct H as [Hsc H]. rewrite Hsc. split; [exact Hs|].
  destruct H as [(cached & _ & _ & ->)
                |(Hmiss & _ & [[-> _]|(sel & _ & Hlt & ->)])];
    try exact Hf.
  rewrite (map_size_insert_None _ _ _ Hmiss). lia.
Qed.

(** X6.  However many requests are served, starting from the empty caches,
    neither cache ever holds more entries than its maximum. *)
Theorem caches_within_capacity (st : state) :
  reachable st ->
  size (sql_cache st) <= MAX_CACHE_SIZE
  /\ size (filter_cache st) <= MAX_FILTER_CACHE_SIZE.
Proof.
  intros Hreach. apply reachable_evolves in Hreach.
  apply (evolves_invariant
           (fun st => size (sql_cache st) <= MAX_CACHE_SIZE
                      /\ size (filter_cache st) <= MAX_FILTER_CACHE_SIZE)
           capacity_get_sql capacity_filter initial st Hreach).
  split; cbn; rewrite map_size_empty; unfold MAX_CACHE_SIZE,
    MAX_FILTER_CACHE_SIZE; lia.
Qed.

(** After one run that fills both caches with an entry. *)
Lemma caches_within_capacity_witness :
  size (sql_cache (snd (recommend_books
                          (Examples.run_with (Content (lit "[2]") 9))
                          (lit "dune") initial))) <= MAX_CACHE_SIZE
  /\ size (filter_cache (snd (recommend_books
                                (Examples.run_with (Content (lit "[2]") 9))
                                (lit "dune") initial)))
     <= MAX_FILTER_CACHE_SIZE.
Proof.
  apply caches_within_capacity. apply reachable_recommend, reachable_initial.
Defined.

(** *** Entries stay *)

Lemma persist_get_sql api q st :
  (forall k v, sql_cache st !! k = Some v ->
               sql_cache (snd (get_sql_from_deepseek api q st)) !! k = Some v)
  /\ filter_cache (snd (get_sql_from_deepseek api q st)) = filter_cache st
  /\ posted st <= posted (snd (get_sql_from_deepseek api q st)).
Proof.
  pose proof (get_sql_effect api q st) as H.
  destruct (get_sql_from_deepseek api q st) as [r st']. cbn [snd].
  destruct H as [Hfc H]. split; [|split; [exact Hfc|]].
  - intros k v Hk.
    destruct H as [(sql & line & _ & _ & ->)
                  |(Hmiss & _ & [[-> _]|(sql & line & tok & _ & _ & _ & ->)])];
      try exact Hk.
    rewrite lookup_insert_ne; [exact Hk|]. intros <-. congruence.
  - destruct H as [(sql & line & _ & _ & ->)|(_ & -> & _)]; lia.
Qed.

Lemma persist_filter api q books st :
  sql_cache (snd (filter_books_with_deepseek api q books st)) = sql_cache st
  /\ (forall k v, filter_cache st !! k = Some v ->
        filter_cache (snd (filter_books_with_deepseek api q books st)) !! k
        = Some v)
  /\ posted st <= posted (snd (filter_books_with_deepseek api q books st)).
Proof.
  pose proof (filter_effect api q books st) as H. cbv zeta in H.
  destruct (filter_books_with_deepseek api q books st) as [r st']. cbn [snd].
  destruct H as [Hsc H]. split; [exact Hsc|split].
  - intros k v Hk.
    destruct H as [(cached & _ & _ & ->)
                  |(Hmiss & _ & [[-> _]|(sel & _ & _ & ->)])];
      try exact Hk.
    rewrite lookup_insert_ne; [exact Hk|]. intros <-. congruence.
  - destruct H as [(cached & _ & _ & ->)|(_ & -> & _)]; lia.
Qed.

Lemma entries_persist (st st' : state) :
  evolves st st' ->
  (forall k v, sql_cache st !! k = Some v -> sql_cache st' !! k = Some v)
  /\ (forall k v, filter_cache st !! k = Some v ->
                  filter_cache st' !! k = Some v)
  /\ posted st <= posted st'.
Proof.
  intros Hev.
  apply (evolves_invariant
           (fun s =>
              (forall k v, sql_cache st !! k = Some v -> sql_cache s !! k = Some v)
              /\ (forall k v, filter_cache st !! k = Some v ->
                              filter_cache s !! k = Some v)
              /\ posted st <= posted s)) with (st := st); auto.
  - intros api q s (H1 & H2 & H3).
    destruct (persist_get_sql api q s) as (P1 & P2 & P3).
    split; [|split]; [auto | rewrite P2; exact H2 | lia].
  - intros api q books s (H1 & H2 & H3).
    destruct (persist_filter api q books s) as (P1 & P2 & P3).
    split; [|split]; [rewrite P1; exact H1 | auto | lia].
Qed.

(** X7.  Nothing is ever evicted or overwritten: a request that is in the
    synthesis cache is answered with the same query text and loading line,
    at no cost and without any post, after any number of further calls; the
    same holds for a request and candidate titles in the filter cache. *)
Theorem cached_answers_are_permanent (st st' : state) :
  evolves st st' ->
  (forall user_query sql_text loading_line api,
     sql_cache st !! user_query = Some (sql_text, loading_line) ->
     get_sql_from_deepseek api user_query st'
     = (Return (sql_text, loading_line, 0%Z), st'))
  /\ (forall user_query books indices api,
        filter_cache st !! cache_key user_query books = Some indices ->
        filter_books_with_deepseek api user_query books st'
        = (Return indices, st')).
Proof.
  intros Hev. destruct (entries_persist st st' Hev) as (Hs & Hf & _). split.
  - intros q sql line api Hq. unfold get_sql_from_deepseek.
    rewrite (Hs _ _ Hq). reflexivity.
  - intros q books idx api Hk. unfold filter_books_with_deepseek.
    rewrite (Hf _ _ Hk). reflexivity.
Qed.

(** The request [dune] stays answered after a run for another request. *)
Lemma cached_answers_are_permanent_witness :
  get_sql_from_deepseek Timeout (lit "dune")
    (snd (recommend_books (Examples.run_with Timeout) (lit "emma")
            Samples.after_dune))
  = (Return (Examples.fiction_query, None, 0%Z),
     snd (recommend_books (Examples.run_with Timeout) (lit "emma")
            Samples.after_dune)).
Proof.
  refine (proj1 (cached_answers_are_permanent Samples.after_dune _ _)
            (lit "dune") Examples.fiction_query None Timeout _).
  - apply evolves_recommend, evolves_refl.
  - reflexivity.
Defined.

(** *** What is cached is valid *)

Lemma cached_valid_get_sql api q st :
  (forall k sql line, sql_cache st !! k = Some (sql, line) ->
                      valid_sql_format sql = true) ->
  forall k sql line,
    sql_cache (snd (get_sql_from_deepseek api q st)) !! k = Some (sql, line) ->
    valid_sql_format sql = true.
Proof.
  intros Hinv. pose proof (get_sql_effect api q st) as H.
  destruct (get_sql_from_deepseek api q st) as [r st']. cbn [snd].
  destruct H as [_ H].
  destruct H as [(sql & line & _ & _ & ->)
                |(Hmiss & _ & [[-> _]|(sql & line & tok & _ & _ & Hv & ->)])];
    try exact Hinv.
  intros k sql' line'. destruct (decide (q = k)) as [->|Hne].
  - rewrite lookup_insert_eq. intros [= <- <-]. exact Hv.
  - rewrite lookup_insert_ne by exact Hne. apply Hinv.
Qed.

Lemma cached_valid (st : state) :
  reachable st ->
  forall k sql line, sql_cache st !! k = Some (sql, line) ->
                     valid_sql_format sql = true.
Proof.
  intros Hreach. apply reachable_evolves in Hreach.
  apply (evolves_invariant
           (fun s => forall k sql line, sql_cache s !! k = Some (sql, line) ->
                                        valid_sql_format sql = true))
    with (st := initial); auto.
  - apply cached_valid_get_sql.
  - intros api q books s Hs k sql line.
    destruct (persist_filter api q books s) as (-> & _). apply Hs.
  - intros k sql line. cbn. rewrite lookup_empty. discriminate.
Qed.

Lemma returned_valid
    (api : reply) (user_query : str) (st st' : state) (sql_text : str)
    (loading_line : option str) (tokens : Z) :
  reachable st ->
  get_sql_from_deepseek api user_query st
    = (Return (sql_text, loading_line, tokens), st') ->
  valid_sql_format sql_text = true.
Proof.
  intros Hreach Hcall. pose proof (get_sql_effect api user_query st) as H.
  rewrite Hcall in H. destruct H as [_ H].
  destruct H as [(sql & line & Hhit & [= -> -> ->] & _)
                |(Hmiss & _ & [[_ [[e He]|Hfull]]|(sql & line & tok & [= -> -> ->] & _ & Hv & _)])].
  - apply (cached_valid st Hreach _ _ _ Hhit).
  - discriminate He.
  - (* full cache: the text is valid all the same *)
    clear Hfull. unfold get_sql_from_deepseek in Hcall. rewrite Hmiss in Hcall.
    destruct api as [| | |content used]; try discriminate.
    destruct (parse_response (strip content)) as [line candidate].
    destruct (valid_sql_format candidate) eqn:Hv; cbn [negb] in Hcall.
    + destruct (size (sql_cache (post st)) <? MAX_CACHE_SIZE);
        injection Hcall as <- _ _ _; exact Hv.
    + destruct (fallback_sql user_query) as [sql|e] eqn:Hf; [|discriminate].
      apply SynthesisFacts.fallback_sql_valid in Hf.
      destruct (size (sql_cache (post st)) <? MAX_CACHE_SIZE);
        injection Hcall as <- _ _ _; exact Hf.
  - exact Hv.
Qed.

(** X8.  In every state the program can reach, the query text that
    [get_sql_from_deepseek] returns, served from the cache or made from a
    reply, passes the shape check. *)
Theorem returned_query_is_valid
    (api : reply) (user_query : str) (st st' : state) (sql_text : str)
    (loading_line : option str) (tokens : Z) :
  reachable st ->
  get_sql_from_deepseek api user_query st
    = (Return (sql_text, loading_line, tokens), st') ->
  valid_sql_format sql_text = true.
Proof. apply returned_valid. Qed.

(** The cached answer of a second run. *)
Lemma returned_query_is_valid_witness :
  valid_sql_format Examples.fiction_query = true.
Proof.
  apply (returned_query_is_valid Timeout (lit "dune") Samples.after_dune
           Samples.after_dune Examples.fiction_query None 0%Z).
  - apply reachable_recommend, reachable_initial.
  - reflexivity.
Defined.

(** *** A full cache *)

(** X9.  Once the synthesis cache holds its maximum number of entries it
    never changes again: every later request that is not in it is sent to
    the language-model service each time it is made, and is not stored. *)
Theorem full_sql_cache_is_frozen (st st' : state) :
  MAX_CACHE_SIZE <= size (sql_cache st) ->
  evolves st st' ->
  sql_cache st' = sql_cache st
  /\ forall api user_query,
       sql_cache st !! user_query = None ->
       posted (snd (get_sql_from_deepseek api user_query st')) = S (posted st')
       /\ sql_cache (snd (get_sql_from_deepseek api user_query st'))
            !! user_query = None.
Proof.
  intros Hfull Hev.
  assert (Hstep : forall api q s,
            sql_cache s = sql_cache st ->
            sql_cache (snd (get_sql_from_deepseek api q s)) = sql_cache st).
  { intros api q s Hs. pose proof (get_sql_effect api q s) as H.
    destruct (get_sql_from_deepseek api q s) as [r s']. cbn [snd].
    destruct H as [_ H].
    destruct H as [(sql & line & _ & _ & ->)
                  |(Hmiss & _ & [[-> _]|(sql & line & tok & _ & Hlt & _)])];
      try exact Hs.
    rewrite Hs in Hlt. lia. }
  assert (Hsame : sql_cache st' = sql_cache st).
  { apply (evolves_invariant (fun s => sql_cache s = sql_cache st))
      with (st := st); auto.
    intros api q books s Hs.
    destruct (persist_filter api q books s) as (-> & _). exact Hs. }
  split; [exact Hsame|].
  intros api q Hmiss. rewrite (Hstep api q st' Hsame).
  split; [|exact Hmiss].
  pose proof (get_sql_effect api q st') as H.
  destruct (get_sql_from_deepseek api q st') as [r s']. cbn [snd].
  destruct H as [_ [(sql & line & Hhit & _)|(_ & Hp & _)]]; [|exact Hp].
  rewrite Hsame in Hhit. congruence.
Qed.

(** A state with a thousand cached requests, and a request that is not one of
    them. *)
Lemma full_sql_cache_is_frozen_witness :
  posted (snd (get_sql_from_deepseek (Content Examples.fiction_query 42)
                 (lit "dune") Samples.full_state)) = 1001
  /\ sql_cache (snd (get_sql_from_deepseek (Content Examples.fiction_query 42)
                       (lit "dune") Samples.full_state)) !! lit "dune" = None.
Proof.
  refine (proj2 (full_sql_cache_is_frozen Samples.full_state Samples.full_state
                   _ _) (Content Examples.fiction_query 42) (lit "dune") _).
  - vm_compute. lia.
  - apply evolves_refl.
  - vm_compute. reflexivity.
Defined.

(** *** Failures *)

Lemma get_sql_raises
    (api : reply) (user_query : str) (st st' : state) (e : exn) :
  get_sql_from_deepseek api user_query st = (Raise e, st') ->
  sql_cache st !! user_query = None
  /\ st' = post st
  /\ ((api = Timeout /\ e = GenerationTimeout)
      \/ (api = RequestException /\ e = GenerationFailed)
      \/ (api = BadBody /\ e = BodyError)
      \/ (exists content tokens,
            api = Content content tokens /\ e = IndexError
            /\ valid_sql_format (snd (parse_response (strip content))) = false
            /\ Forall (fun c => isspace c = true) user_query)).
Proof.
  unfold get_sql_from_deepseek.
  destruct (sql_cache st !! user_query) as [[cached_sql cached_line]|];
    [discriminate|].
  intros H. split; [reflexivity|].
  destruct api as [| | |content used].
  - injection H as <- <-. auto.
  - injection H as <- <-. auto 6.
  - injection H as <- <-. auto 6.
  - destruct (parse_response (strip content)) as [line candidate] eqn:Hp.
    destruct (valid_sql_format candidate) eqn:Hv; cbn [negb] in H.
    + destruct (size (sql_cache (post st)) <? MAX_CACHE_SIZE); discriminate H.
    + unfold fallback_sql in H.
      destruct (split user_query) as [|first others] eqn:Hs.
      * injection H as <- <-. split; [reflexivity|].
        right. right. right. exists content, used. rewrite Hp.
        repeat split; [exact Hv|]. apply split_blank. exact Hs.
      * destruct (1 <? length (first :: others));
          destruct (size (sql_cache (post st)) <? MAX_CACHE_SIZE);
          discriminate H.
Qed.

(** X10.  [get_sql_from_deepseek] raises in four cases only, each after a
    cache miss and a post: the request timed out, the request failed, the
    body of the reply could not be read, or the reply is not a valid query
    and the request has no token for the fallback.  A call that raises
    leaves both caches as they are: failures are not cached. *)
Theorem synthesis_failure_causes
    (api : reply) (user_query : str) (st st' : state) (e : exn) :
  get_sql_from_deepseek api user_query st = (Raise e, st') ->
  sql_cache st !! user_query = None
  /\ st' = post st
  /\ ((api = Timeout /\ e = GenerationTimeout)
      \/ (api = RequestException /\ e = GenerationFailed)
      \/ (api = BadBody /\ e = BodyError)
      \/ (exists content tokens,
            api = Content content tokens /\ e = IndexError
            /\ valid_sql_format (snd (parse_response (strip content))) = false
            /\ Forall (fun c => isspace c = true) user_query)).
Proof. apply get_sql_raises. Qed.

(** A timeout, from the state after a first run. *)
Lemma synthesis_failure_causes_witness :
  sql_cache Samples.after_dune !! lit "emma" = None
  /\ post Samples.after_dune = post Samples.after_dune
  /\ ((Timeout = Timeout /\ GenerationTimeout = GenerationTimeout)
      \/ (Timeout = RequestException /\ GenerationTimeout = GenerationFailed)
      \/ (Timeout = BadBody /\ GenerationTimeout = BodyError)
      \/ (exists content tokens,
            Timeout = Content content tokens /\ GenerationTimeout = IndexError
            /\ valid_sql_format (snd (parse_response (strip content))) = false
            /\ Forall (fun c => isspace c = true) (lit "emma"))).
Proof.
  apply (synthesis_failure_causes Timeout (lit "emma") Samples.after_dune
           (post Samples.after_dune) GenerationTimeout).
  reflexivity.
Defined.

End CacheFacts.

(** ** More on the relevance filter *)

Module FilterMoreFacts.

Import Char PyStr DeepSeek BookService Reach History TextFacts FilterFacts.

(** X11.  The filter fails open.  After a cache miss, when the request times
    out or fails, or the reply holds no array, or the array is not valid
    JSON, [filter_books_with_deepseek] returns every index of the candidates
    it considers once, in order, and stores nothing: the next call for the
    same candidates asks the service again. *)
Theorem filter_fails_open
    (api : reply) (user_query : str) (books : list Book) (st : state) :
  filter_cache st !! cache_key user_query books = None ->
  api = Timeout \/ api = RequestException
  \/ (exists content tokens,
        api = Content content tokens
        /\ (Re.search json_array (strip content) = None
            \/ exists json_match,
                 Re.search json_array (strip content) = Some json_match
                 /\ json_loads json_match = None)) ->
  filter_books_with_deepseek api user_query books st
  = (Return (seq 0 (Nat.min 20 (length books))), post st).
Proof.
  intros Hmiss Hapi. unfold filter_books_with_deepseek.
  rewrite Hmiss, books_to_process_length.
  destruct Hapi as [->|[->|(content & tokens & -> & [Hnone|(j & Hj & Hl)])]];
    try reflexivity.
  - rewrite Hnone. reflexivity.
  - rewrite Hj, Hl. reflexivity.
Qed.

(** A reply whose array has a number with a leading zero. *)
Lemma filter_fails_open_witness :
  filter_books_with_deepseek (Content (lit "Books [01, 2] fit.") 9)
    (lit "dune") Examples.shelf initial
  = (Return [0; 1; 2], post initial).
Proof.
  apply (filter_fails_open (Content (lit "Books [01, 2] fit.") 9) (lit "dune")
           Examples.shelf initial).
  - reflexivity.
  - right. right. exists (lit "Books [01, 2] fit."), 9%Z.
    split; [reflexivity|]. right. exists (lit "[01, 2]").
    split; reflexivity.
Defined.

(** X12.  Only the first twenty candidates count: a call with a list of
    candidates and the call with its first twenty give the same result and
    the same state. *)
Theorem filter_sees_first_twenty
    (api : reply) (user_query : str) (books : list Book) (st : state) :
  filter_books_with_deepseek api user_query books st
  = filter_books_with_deepseek api user_query (take 20 books) st.
Proof.
  unfold filter_books_with_deepseek, cache_key.
  rewrite !books_to_process_take, take_take, Nat.min_id. reflexivity.
Qed.

(** X13.  The filter cache is keyed by the request and the titles alone.
    When a call has parsed a reply, with room in the cache if it was a miss,
    a later call for the same request and any candidates whose first twenty
    titles are the same returns the same indices without a post. *)
Theorem filter_answer_shared_by_titles
    (content : str) (tokens : Z) (later_api : reply) (user_query : str)
    (books later_books : list Book) (st st1 : state) (indices : list nat)
    (json_match : str) (selected : list nat) :
  filter_books_with_deepseek (Content content tokens) user_query books st
    = (Return indices, st1) ->
  Re.search json_array (strip content) = Some json_match ->
  json_loads json_match = Some selected ->
  (filter_cache st !! cache_key user_query books = None ->
   size (filter_cache st) < MAX_FILTER_CACHE_SIZE) ->
  map title (take 20 later_books) = map title (take 20 books) ->
  filter_books_with_deepseek later_api user_query later_books st1
  = (Return indices, st1).
Proof.
  intros Hcall Hfound Hloads Hroom Htitles.
  assert (Hkey : cache_key user_query later_books = cache_key user_query books).
  { unfold cache_key. rewrite !books_to_process_take, Htitles. reflexivity. }
  assert (Hhit : filter_cache st1 !! cache_key user_query books = Some indices).
  { unfold filter_books_with_deepseek in Hcall.
    destruct (filter_cache st !! cache_key user_query books) as [cached|] eqn:Hc.
    - injection Hcall as <- <-. exact Hc.
    - rewrite Hfound, Hloads in Hcall. cbn [post filter_cache] in Hcall.
      assert (Hlt : (size (filter_cache st) <? MAX_FILTER_CACHE_SIZE) = true)
        by (apply Nat.ltb_lt, Hroom; reflexivity).
      rewrite Hlt in Hcall. injection Hcall as <- <-.
      cbn [store_filter filter_cache]. apply lookup_insert_eq. }
  unfold filter_books_with_deepseek. rewrite Hkey, Hhit. reflexivity.
Qed.



(** The same titles under other authors. *)
Lemma filter_answer_shared_by_titles_witness :
  filter_books_with_deepseek Timeout (lit "dune") Samples.signed_shelf
    (snd (filter_books_with_deepseek (Content (lit "[3, 1]") 9) (lit "dune")
            Examples.shelf initial))
  = (Return [2; 0],
     snd (filter_books_with_deepseek (Content (lit "[3, 1]") 9) (lit "dune")
            Examples.shelf initial)).
Proof.
  apply (filter_answer_shared_by_titles (lit "[3, 1]") 9 Timeout (lit "dune")
           Examples.shelf Samples.signed_shelf initial _ [2; 0]
           (lit "[3, 1]") [3; 1]); try reflexivity.
  intros _. vm_compute. lia.
Defined.

(** X15.  In every state the program can reach, the test [i < len(db_results)]
    of line 71 of book_service.py never discards an index: the records picked
    from the candidates follow the list the filter returned for them element
    by element, so there are as many records as indices. *)
Theorem bounds_check_keeps_every_index
    (api : reply) (user_query : str) (books : list Book) (st st' : state)
    (indices : list nat) :
  reachable st ->
  filter_books_with_deepseek api user_query books st = (Return indices, st') ->
  Forall2 (fun i b => books !! i = Some b) indices (select_books books indices)
  /\ length (select_books books indices) = length indices.
Proof.
  intros Hreach Hcall.
  assert (Hrange : Forall (fun i => i < length books) indices).
  { eapply Forall_impl.
    - apply (filter_returns_in_range api user_query books st indices st');
        [apply reachable_in_range; exact Hreach | exact Hcall].
    - cbn beta. intros i Hi. rewrite books_to_process_length in Hi. lia. }
  pose proof (select_books_elementwise books indices Hrange) as H.
  split; [exact H|]. symmetry. apply (Forall2_length _ _ _ H).
Qed.

Lemma bounds_check_keeps_every_index_witness :
  Forall2 (fun i b => Examples.shelf !! i = Some b) [2; 0]
    (select_books Examples.shelf [2; 0])
  /\ length (select_books Examples.shelf [2; 0]) = length [2; 0].
Proof.
  apply (bounds_check_keeps_every_index (Content (lit "[3, 1]") 9) (lit "dune")
           Examples.shelf initial
           (snd (filter_books_with_deepseek (Content (lit "[3, 1]") 9)
                   (lit "dune") Examples.shelf initial))).
  - apply reachable_initial.
  - reflexivity.
Defined.

End FilterMoreFacts.

(** ** More on the orchestrator *)

Module OrchestratorMoreFacts.

Import Char PyStr DeepSeek BookService Reach History App TextFacts
  SqlMoreFacts.

Lemma select_books_from (db_results : list Book) (indices : list nat) :
  Forall (fun b => b ∈ db_results) (select_books db_results indices).
Proof.
  unfold select_books. apply Forall_forall. intros b Hb.
  apply list_elem_of_omap in Hb as (i & _ & Hi).
  apply (list_elem_of_lookup_2 _ _ _ Hi).
Qed.

Lemma take_from {A} (n : nat) (l : list A) : Forall (fun b => b ∈ l) (take n l).
Proof.
  apply Forall_forall. intros b Hb.
  apply (subseteq_take n l). exact Hb.
Qed.

(** X16.  What [recommend_books] recommends is never empty and never made
    up: every recommended record is one of the rows that the data source
    returned for the cleaned query of this run, and the loading line is the
    one of the synthesiser. *)
Theorem recommended_books_come_from_results
    (w : world) (user_query : str) (st : state) (loading_line : str)
    (final_books : list Book) :
  fst (recommend_books w user_query st) = Recommended loading_line final_books ->
  final_books <> []
  /\ exists sql_text line tokens db_results,
       fst (get_sql_from_deepseek (sql_api w) user_query st)
       = Return (sql_text, line, tokens)
       /\ loading_line = default [] line
       /\ execute_sql_query w (SqlUtils.clean_sql sql_text) = Some db_results
       /\ Forall (fun b => b ∈ db_results) final_books.
Proof.
  unfold recommend_books. destruct (cursor_ok w); cbn [negb]; [|discriminate].
  destruct (get_sql_from_deepseek (sql_api w) user_query st)
    as [[[[sql line] used]|e] st1]; [|discriminate].
  destruct (execute_sql_query w (SqlUtils.clean_sql sql)) as [[|b db]|] eqn:Hdb;
    try discriminate.
  destruct (filter_books_with_deepseek (filter_api w) user_query (b :: db) st1)
    as [[selected|e] st2].
  - pose proof (select_books_from (b :: db) selected) as Hfrom.
    destruct (select_books (b :: db) selected) as [|b' l]; [discriminate|].
    cbn [fst]. intros [= <- <-]. split; [discriminate|].
    exists sql, line, used, (b :: db). auto.
  - pose proof (take_from 15 (b :: db)) as Hfrom.
    destruct (take 15 (b :: db)) as [|b' l]; [discriminate|].
    cbn [fst]. intros [= <- <-]. split; [discriminate|].
    exists sql, line, used, (b :: db). auto.
Qed.

Lemma recommended_books_come_from_results_witness :
  [Examples.book "Emma"] <> []
  /\ exists sql_text line tokens db_results,
       fst (get_sql_from_deepseek
              (sql_api (Examples.run_with (Content (lit "[2]") 9)))
              (lit "dune") initial)
       = Return (sql_text, line, tokens)
       /\ [] = default [] line
       /\ execute_sql_query (Examples.run_with (Content (lit "[2]") 9))
            (SqlUtils.clean_sql sql_text) = Some db_results
       /\ Forall (fun b => b ∈ db_results) [Examples.book "Emma"].
Proof.
  apply (recommended_books_come_from_results
           (Examples.run_with (Content (lit "[2]") 9)) (lit "dune") initial).
  reflexivity.
Defined.

(** X17.  One run of [recommend_books] posts at most two requests to the
    language-model service (one for the query, one for the filter), and none
    is ever taken back. *)
Theorem run_posts_at_most_twice (w : world) (user_query : str) (st : state) :
  posted st <= posted (snd (recommend_books w user_query st)) <= posted st + 2.
Proof.
  assert (Hsql : forall s,
            posted s <= posted (snd (get_sql_from_deepseek (sql_api w) user_query s))
            <= posted s + 1).
  { intros s. pose proof (CacheFacts.get_sql_effect (sql_api w) user_query s) as H.
    destruct (get_sql_from_deepseek (sql_api w) user_query s) as [r s'].
    cbn [snd]. destruct H as [_ [(sql & line & _ & _ & ->)|(_ & -> & _)]]; lia. }
  assert (Hfilter : forall db s,
            posted s
            <= posted (snd (filter_books_with_deepseek (filter_api w) user_query
                              db s))
            <= posted s + 1).
  { intros db s.
    pose proof (CacheFacts.filter_effect (filter_api w) user_query db s) as H.
    cbv zeta in H.
    destruct (filter_books_with_deepseek (filter_api w) user_query db s)
      as [r s']. cbn [snd].
    destruct H as [_ [(cached & _ & _ & ->)|(_ & -> & _)]]; lia. }
  destruct (CacheFacts.recommend_state w user_query st) as [->|[->|[db ->]]].
  - lia.
  - specialize (Hsql st). lia.
  - specialize (Hsql st).
    specialize (Hfilter db
                  (snd (get_sql_from_deepseek (sql_api w) user_query st))).
    lia.
Qed.

(** X18.  [recommend_books] never answers with its lost-connection message:
    the cursor test of line 53 repeats the one of line 20 on the same
    object, and a run that fails the first has already returned. *)
Theorem lost_connection_never_reported
    (w : world) (user_query : str) (st : state) :
  match fst (recommend_books w user_query st) with
  | LostConnection => False
  | _ => True
  end.
Proof.
  unfold recommend_books. destruct (cursor_ok w); cbn [negb]; [|exact I].
  destruct (get_sql_from_deepseek (sql_api w) user_query st)
    as [[[[sql line] used]|e] st1]; [|exact I].
  destruct (execute_sql_query w (SqlUtils.clean_sql sql)) as [[|b db]|];
    try exact I.
  destruct (filter_books_with_deepseek (filter_api w) user_query (b :: db) st1)
    as [[selected|e] st2].
  - destruct (select_books (b :: db) selected); exact I.
  - destruct (take 15 (b :: db)); exact I.
Qed.

(** X19.  In every state the program can reach, what [recommend_books] hands
    to the data source is a single statement: the cleaned text of any query
    the synthesiser returns has exactly one semicolon, its last
    character. *)
Theorem executed_query_is_one_statement
    (api : reply) (user_query : str) (st st' : state) (sql_text : str)
    (loading_line : option str) (tokens : Z) :
  reachable st ->
  get_sql_from_deepseek api user_query st
    = (Return (sql_text, loading_line, tokens), st') ->
  count semicolon (SqlUtils.clean_sql sql_text) = 1
  /\ endswith semicolon (SqlUtils.clean_sql sql_text) = true.
Proof.
  intros Hreach Hcall.
  apply statement_count, clean_sql_statement, valid_statement.
  apply (CacheFacts.returned_valid _ _ _ _ _ _ _ Hreach Hcall).
Qed.

(** A reply with a second statement after the query. *)
Lemma executed_query_is_one_statement_witness :
  count semicolon
    (SqlUtils.clean_sql (lit "select  TOP 5 * from Table_TopBooksData; DROP TABLE Orders; --"))
  = 1
  /\ endswith semicolon
       (SqlUtils.clean_sql (lit "select  TOP 5 * from Table_TopBooksData; DROP TABLE Orders; --"))
     = true.
Proof.
  apply (executed_query_is_one_statement
           (Content (lit "select  TOP 5 * from Table_TopBooksData; DROP TABLE Orders; --") 7)
           (lit "dune") initial
           (snd (get_sql_from_deepseek
                   (Content (lit "select  TOP 5 * from Table_TopBooksData; DROP TABLE Orders; --") 7)
                   (lit "dune") initial))
           _ None 7%Z).
  - apply reachable_initial.
  - reflexivity.
Defined.

(** *** Blank messages *)

Lemma strip_blank (s : str) :
  strip s = [] <-> Forall (fun c => isspace c = true) s.
Proof.
  unfold strip, lstrip_with, rstrip_with. split.
  - intros H. apply skip_nil.
    destruct (skip isspace s) as [|c r] eqn:Hs; [reflexivity|].
    exfalso. apply (f_equal (@rev ascii)) in H. rewrite rev_involutive in H.
    cbn [rev] in H. apply skip_nil in H.
    apply Forall_app in H as [_ H]. inversion H as [|? ? Hc _]; subst.
    rewrite (skip_head isspace s c r Hs) in Hc. discriminate Hc.
  - intros H. apply skip_nil in H. rewrite H. reflexivity.
Qed.

Lemma empty_message_blank (s : str) :
  empty_message s = true <-> Forall (fun c => isspace c = true) s.
Proof.
  unfold empty_message. destruct s as [|c s]; [split; [constructor | reflexivity]|].
  rewrite <- strip_blank.
  destruct (strip (c :: s)); split; congruence.
Qed.

(** X20.  For a message that the chat route of app.py lets through (one that
    is not empty or all whitespace), [recommend_books] gives its
    tangled-request answer only when the language-model service let the
    synthesiser down: the request was not cached and it timed out, failed, or
    came back with a body that could not be read.  The fallback query never
    fails on such a message. *)
Theorem tangled_only_when_service_fails
    (w : world) (user_query : str) (st : state) :
  empty_message user_query = false ->
  fst (recommend_books w user_query st) = Tangled ->
  sql_cache st !! user_query = None
  /\ (sql_api w = Timeout \/ sql_api w = RequestException
      \/ sql_api w = BadBody).
Proof.
  intros Hmsg. unfold recommend_books.
  destruct (cursor_ok w); cbn [negb]; [|discriminate].
  destruct (get_sql_from_deepseek (sql_api w) user_query st)
    as [[[[sql line] used]|e] st1] eqn:Hsql.
  - destruct (execute_sql_query w (SqlUtils.clean_sql sql)) as [[|b db]|];
      try discriminate.
    destruct (filter_books_with_deepseek (filter_api w) user_query (b :: db) st1)
      as [[selected|e] st2].
    + destruct (select_books (b :: db) selected); discriminate.
    + destruct (take 15 (b :: db)); discriminate.
  - intros _.
    destruct (CacheFacts.get_sql_raises _ _ _ _ _ Hsql)
      as (Hmiss & _ & [[H _]|[[H _]|[[H _]|(c & t & _ & _ & _ & Hblank)]]]);
      auto.
    apply empty_message_blank in Hblank. congruence.
Qed.

Lemma tangled_only_when_service_fails_witness :
  sql_cache initial !! lit "dune" = None
  /\ (sql_api Samples.silent_service = Timeout
      \/ sql_api Samples.silent_service = RequestException
      \/ sql_api Samples.silent_service = BadBody).
Proof.
  apply (tangled_only_when_service_fails Samples.silent_service
           (lit "dune") initial); reflexivity.
Defined.

End OrchestratorMoreFacts.
